(** * react-keydown: the binding store and the document listeners

    A shallow embedding of the two coexisting implementations of the
    keybinding registry: the array-based [Store] object ([src/store.js],
    of which a second copy differs in comments only) and the [listeners]
    module that keeps a single focused instance, with the properties of
    the specification stated over them.

    Module variables become fields of a state record that every function
    takes and returns. A call either returns or throws ([Res]). Callbacks
    registered by components are not run: a call of one is recorded, with
    its receiver and its event, in the trace of the function that makes
    it. *)

From Stdlib Require Import ZArith.
From stdpp Require Import gmap strings list.

(** ** JavaScript values shared by both modules *)

(** The two kinds of runtime error the code can raise. *)
Inductive JsError :=
  | TypeError
  | ReferenceError (name : string).

(** Completion of a call: a normal return or a thrown error. *)
Inductive Res (A : Type) :=
  | Ok (a : A)
  | Throw (e : JsError).
Arguments Ok {A} a.
Arguments Throw {A} e.

(** A function object, represented by its identity. *)
Definition Fn := nat.

(** A keydown event: the tag name of its target ([undefined] when the
    target is not an element) and the key data the matcher inspects. *)
Record Event (D : Type) := { target_tagName : option string; ev_data : D }.
Arguments target_tagName {D} e.
Arguments ev_data {D} e.

(** The modules imported from [./lib], which are not part of the sources:
    the key parser, the key matcher and the identifier generator.
    [parseKeys] gives the descriptors of the array it returns,
    [matchKeys] receives the [keySet] (possibly [null]) and the event, and
    [uuid n] is the value returned by the [n]-th call of [uuid()], an
    identifier taken as a JavaScript number (0 is the falsy one). *)
Class KeyLib := {
  Keys : Type;
  KeySet : Type;
  EventData : Type;
  parseKeys : Keys -> list KeySet;
  matchKeys : option KeySet -> Event EventData -> bool;
  uuid : nat -> N
}.

(** ** The array-based store (src/store.js) *)

Module Store.
Section Defs.
Context `{L : KeyLib}.

(** An object: its own identity and the identities of the objects on its
    prototype chain, nearest first. *)
Record Obj := { self : nat; chain : list nat }.

#[global] Instance Obj_eq_dec : EqDecision Obj.
Proof. solve_decision. Defined.

(** What [activate] and [getBinding] can be handed. *)
Inductive Value :=
  | VNull
  | VUndef
  | VObj (o : Obj).

(** Modelled from the spec: [allKeys] of [./lib/keys] is missing; called
    without argument it yields the "any key" representation, called with
    a key-set it tells whether that key-set is this representation. *)
Inductive KeySets :=
  | AllKeys
  | Sets (l : list KeySet).

(** Modelled from the spec: [allKeys( keySets )], the recogniser of the
    "any key" representation. *)
Definition allKeys (keySets : KeySets) : bool :=
  match keySets with AllKeys => true | Sets _ => false end.

(** An element of [_handlers2]. *)
Record Hand := { targetUuid : option N; keySets : KeySets; fn : Fn }.

(** The module state: the two arrays, the own [__reactKeydownUUID]
    property of every object that has one, and the number of calls made
    to [uuid()]. *)
Record State := {
  _handlers2 : list Hand;
  _instances2 : list Value;
  heap : gmap nat N;
  uuid_calls : nat
}.

(** The bindings declared at module level (imports, constants, exports). *)
Definition module_scope : list string :=
  ["allKeys"; "matchKeys"; "parseKeys"; "uuid"; "Immutable";
   "_handlers2"; "_instances2"; "_resetStore"; "Store"].

(** Evaluating an identifier: one that is not declared is a
    [ReferenceError]. *)
Definition resolve (x : string) : Res unit :=
  if bool_decide (x ∈ module_scope) then Ok tt else Throw (ReferenceError x).

(** [a == b] on the values above: [null] and [undefined] are equal to
    each other and to nothing else, objects are compared by identity. *)
Definition loose_eq (a b : Value) : bool :=
  match a, b with
  | VObj x, VObj y => bool_decide (x = y)
  | VObj _, _ | _, VObj _ => false
  | _, _ => true
  end.

(** [arr[i]]: [undefined] past the end. *)
Definition index (arr : list Value) (i : nat) : Value :=
  default VUndef (arr !! i).

(** [arr.pop()]: drops the last element, if any. *)
Definition pop (arr : list Value) : list Value := removelast arr.

(** [let i = n; while (i--) { if (arr[i] == x) arr.pop(); }] *)
Fixpoint scan_pop (i : nat) (x : Value) (arr : list Value) : list Value :=
  match i with
  | O => arr
  | S j => scan_pop j x (if loose_eq (index arr j) x then pop arr else arr)
  end.

(** The body of the [forEach] in [activate]. *)
Definition activate_one (arr : list Value) (instance : Value) : list Value :=
  scan_pop (length arr) instance arr ++ [instance].

(** The argument of [activate]: one value or an array of values;
    [[].concat(instances)] spreads an array and wraps anything else. *)
Inductive Arg :=
  | One (v : Value)
  | Many (vs : list Value).

Definition concat (instances : Arg) : list Value :=
  match instances with One v => [v] | Many vs => vs end.

Definition activate (instances : Arg) (s : State) : State :=
  let instancesArray := concat instances in
  if (length instancesArray =? 0)%nat then s
  else {| _handlers2 := _handlers2 s;
          _instances2 := fold_left activate_one instancesArray (_instances2 s);
          heap := heap s;
          uuid_calls := uuid_calls s |}.

(** [deleteInstance] first evaluates [_instances.delete( target )]. *)
Definition deleteInstance (target : Value) (s : State) : Res unit * State :=
  match resolve "_instances" with
  | Throw e => (Throw e, s)
  | Ok _ =>
      (Ok tt,
       {| _handlers2 := _handlers2 s;
          _instances2 := scan_pop (length (_instances2 s)) target (_instances2 s);
          heap := heap s;
          uuid_calls := uuid_calls s |})
  end.

(** Reading [o.__reactKeydownUUID]: the own property of the first object
    on the prototype chain that has one. *)
Fixpoint lookup_chain (h : gmap nat N) (ids : list nat) : option N :=
  match ids with
  | [] => None
  | i :: rest =>
      match h !! i with
      | Some v => Some v
      | None => lookup_chain h rest
      end
  end.

Definition get_uuid (h : gmap nat N) (o : Obj) : option N :=
  lookup_chain h (self o :: chain o).

(** Truthiness and [==] of a [__reactKeydownUUID] value: a number, or
    [undefined] when no object on the chain has the property. *)
Definition truthy (p : option N) : bool :=
  match p with
  | Some u => negb (u =? 0)%N
  | None => false
  end.

Definition uuid_eq (a b : option N) : bool :=
  match a, b with
  | Some x, Some y => (x =? y)%N
  | None, None => true
  | _, _ => false
  end.

(** What [getBinding] returns. *)
Inductive Bindings :=
  | BNull
  | BUndef
  | BPairs (l : list (KeySets * Fn)).

(** [let i = n; while (i--) { ... return [[keySets, fn]] ... }] of
    [getBinding]; falling off the end returns [undefined]. *)
Fixpoint getBinding_loop (hs : list Hand) (u : option N) (i : nat) : Res Bindings :=
  match i with
  | O => Ok BUndef
  | S j =>
      match hs !! j with
      | None => Throw TypeError
      | Some instance =>
          if uuid_eq (targetUuid instance) u
          then Ok (BPairs [(keySets instance, fn instance)])
          else getBinding_loop hs u j
      end
  end.

(** The parameter pattern [{ __reactKeydownUUID }] throws on [null] and
    [undefined]; [_handlers2] is an array, so [!_handlers2] is [false]. *)
Definition getBinding (target : Value) (s : State) : Res Bindings :=
  match target with
  | VNull | VUndef => Throw TypeError
  | VObj o =>
      let __reactKeydownUUID := get_uuid (heap s) o in
      if negb (truthy __reactKeydownUUID) then Ok BNull
      else getBinding_loop (_handlers2 s) __reactKeydownUUID (length (_handlers2 s))
  end.

(** [allKeys( keySets ) || keySets.some( keyMatchesEvent )] *)
Definition binding_matches (event : Event EventData) (keySets : KeySets) : bool :=
  allKeys keySets ||
  match keySets with
  | AllKeys => false
  | Sets l => existsb (fun keySet => matchKeys (Some keySet) event) l
  end.

(** [for ( const [ keySets, fn ] of bindings )], returning at the first
    match. *)
Fixpoint for_of (event : Event EventData) (bindings : list (KeySets * Fn)) : option Fn :=
  match bindings with
  | [] => None
  | (keySets, fn) :: rest =>
      if binding_matches event keySets then Some fn else for_of event rest
  end.

(** [let i = n; while (i--) { ... }] of [findBindingForEvent]: iterating
    [null] or [undefined] with [for ... of] is a [TypeError]. *)
Fixpoint findBindingForEvent_loop (event : Event EventData) (s : State) (i : nat)
  : Res (option (Fn * Value)) :=
  match i with
  | O => Ok None
  | S j =>
      let instance := index (_instances2 s) j in
      match getBinding instance s with
      | Throw e => Throw e
      | Ok BNull | Ok BUndef => Throw TypeError
      | Ok (BPairs bindings) =>
          match for_of event bindings with
          | Some fn => Ok (Some (fn, instance))
          | None => findBindingForEvent_loop event s j
          end
      end
  end.

(** [_instances2] is an array, so the guard [if ( _instances2 )] always
    passes; [None] is the final [return null]. *)
Definition findBindingForEvent (event : Event EventData) (s : State)
  : Res (option (Fn * Value)) :=
  findBindingForEvent_loop event s (length (_instances2 s)).

Definition getInstances (s : State) : list Value := _instances2 s.

(** The value has bindings of which one matches the event. *)
Definition has_matching_binding (event : Event EventData) (s : State) (v : Value) : bool :=
  match getBinding v s with
  | Ok (BPairs bindings) =>
      match for_of event bindings with Some _ => true | None => false end
  | _ => false
  end.

(** The receiver the specification names for an event: of the values in
    the stack that have a matching binding, the one activated most
    recently. [activations] lists the activated values, oldest first. *)
Definition most_recently_activated (event : Event EventData) (activations : list Value)
    (s : State) : option Value :=
  List.find
    (fun v => existsb (loose_eq v) (_instances2 s) && has_matching_binding event s v)
    (rev activations).

(** A property of an array, as far as the store reads one: an array has
    [length]; any other name used here is [undefined]. *)
Inductive PropVal :=
  | PUndefined
  | PNumber (n : nat).

Definition array_prop (arr : list Value) (name : string) : PropVal :=
  if String.eqb name "length" then PNumber (length arr) else PUndefined.

Definition to_boolean (p : PropVal) : bool :=
  match p with
  | PUndefined => false
  | PNumber n => negb (n =? 0)%nat
  end.

Definition isEmpty (s : State) : bool :=
  negb (to_boolean (array_prop (_instances2 s) "size")).

(** [keys ? parseKeys( keys ) : allKeys()]; [keys] is [None] when the
    argument is absent (falsy). *)
Definition parsed (keys : option Keys) : KeySets :=
  match keys with Some k => Sets (parseKeys k) | None => AllKeys end.

(** Both branches of the source build and push the same record; only the
    first assigns a new identifier to the target. *)
Definition setBinding (keys : option Keys) (fn : Fn) (target : Obj) (s : State) : State :=
  let keySets := parsed keys in
  let __reactKeydownUUID := get_uuid (heap s) target in
  let '(h, calls) :=
    if negb (truthy __reactKeydownUUID)
    then (<[self target := uuid (uuid_calls s)]> (heap s), S (uuid_calls s))
    else (heap s, uuid_calls s) in
  let targetUuid := get_uuid h target in
  let hand := {| targetUuid := targetUuid; keySets := keySets; fn := fn |} in
  {| _handlers2 := _handlers2 s ++ [hand];
     _instances2 := _instances2 s;
     heap := h;
     uuid_calls := calls |}.

Definition _resetStore (s : State) : State :=
  {| _handlers2 := []; _instances2 := []; heap := heap s; uuid_calls := uuid_calls s |}.

Definition init : State :=
  {| _handlers2 := []; _instances2 := []; heap := ∅; uuid_calls := 0 |}.

End Defs.
End Store.

(** ** The listeners module: a single focused instance *)

Module Listeners.
Section Defs.
Context `{L : KeyLib}.

(** A component instance: its identity and the class prototype reached
    by [instance.constructor.prototype], itself an identity. *)
Record Instance := { inst_id : nat; prototype : nat }.

#[global] Instance Instance_eq_dec : EqDecision Instance.
Proof. solve_decision. Defined.

(** The values [_focusedInstance] takes: [null], [undefined] (what
    [Array.prototype.find] returns when nothing is found) or an
    instance. *)
Inductive Focus :=
  | FNull
  | FUndefined
  | FInst (i : Instance).

(** The array built by [setBinding]: [ [ null ] ] or the result of
    [parseKeys], with the identity under which the [Map] keys it. *)
Record KeySetsArr := { arr_ref : nat; elems : list (option KeySet) }.

(** The value stored per class: the [bindings] map (array to callback)
    and the [instances] set, both in insertion order. *)
Record Handler := {
  bindings : list (KeySetsArr * Fn);
  instances : list Instance
}.

(** The rendered page as the code consults it at the time of a call. *)
Record Dom := {
  has_querySelectorAll : bool;
  findDOMNode : Instance -> option nat;
  contains : nat -> nat -> bool;
  querySelectorAll : nat -> list nat
}.

(** What a run leaves behind for an observer: callbacks invoked with
    their receiver and event, and calls of [_activate]. *)
Inductive Effect :=
  | Call (fn : Fn) (this : Instance) (event : Event EventData)
  | Activate (instance : Focus).

(** The module variables, followed by the parts of the environment the
    module acts on: for each of the two handlers the number of
    [addEventListener] calls on [document] not yet undone by a
    [removeEventListener], the [onfocus] wrappers installed on elements
    (instances, newest first), the callbacks handed to [setTimeout]
    (oldest first) and the next array identity. *)
Record State := {
  _handlers : list (nat * Handler);
  _focusedInstance : Focus;
  _clicksBound : bool;
  _keysBound : bool;
  doc_click : nat;
  doc_keydown : nat;
  onfocus : gmap nat (list Instance);
  timers : list Instance;
  next_ref : nat
}.

Definition init : State :=
  {| _handlers := []; _focusedInstance := FNull;
     _clicksBound := false; _keysBound := false;
     doc_click := 0; doc_keydown := 0;
     onfocus := ∅; timers := []; next_ref := 0 |}.

Definition with_handlers (v : list (nat * Handler)) (s : State) : State :=
  {| _handlers := v; _focusedInstance := _focusedInstance s;
     _clicksBound := _clicksBound s; _keysBound := _keysBound s;
     doc_click := doc_click s; doc_keydown := doc_keydown s;
     onfocus := onfocus s; timers := timers s; next_ref := next_ref s |}.

Definition with_focused (v : Focus) (s : State) : State :=
  {| _handlers := _handlers s; _focusedInstance := v;
     _clicksBound := _clicksBound s; _keysBound := _keysBound s;
     doc_click := doc_click s; doc_keydown := doc_keydown s;
     onfocus := onfocus s; timers := timers s; next_ref := next_ref s |}.

Definition with_clicks (b : bool) (n : nat) (s : State) : State :=
  {| _handlers := _handlers s; _focusedInstance := _focusedInstance s;
     _clicksBound := b; _keysBound := _keysBound s;
     doc_click := n; doc_keydown := doc_keydown s;
     onfocus := onfocus s; timers := timers s; next_ref := next_ref s |}.

Definition with_keys (b : bool) (n : nat) (s : State) : State :=
  {| _handlers := _handlers s; _focusedInstance := _focusedInstance s;
     _clicksBound := _clicksBound s; _keysBound := b;
     doc_click := doc_click s; doc_keydown := n;
     onfocus := onfocus s; timers := timers s; next_ref := next_ref s |}.

Definition with_onfocus (v : gmap nat (list Instance)) (s : State) : State :=
  {| _handlers := _handlers s; _focusedInstance := _focusedInstance s;
     _clicksBound := _clicksBound s; _keysBound := _keysBound s;
     doc_click := doc_click s; doc_keydown := doc_keydown s;
     onfocus := v; timers := timers s; next_ref := next_ref s |}.

Definition with_timers (v : list Instance) (s : State) : State :=
  {| _handlers := _handlers s; _focusedInstance := _focusedInstance s;
     _clicksBound := _clicksBound s; _keysBound := _keysBound s;
     doc_click := doc_click s; doc_keydown := doc_keydown s;
     onfocus := onfocus s; timers := v; next_ref := next_ref s |}.

Definition with_next_ref (v : nat) (s : State) : State :=
  {| _handlers := _handlers s; _focusedInstance := _focusedInstance s;
     _clicksBound := _clicksBound s; _keysBound := _keysBound s;
     doc_click := doc_click s; doc_keydown := doc_keydown s;
     onfocus := onfocus s; timers := timers s; next_ref := v |}.

(** *** Calls: state, completion and trace *)

Definition M (A : Type) : Type := State -> Res A * State * list Effect.

Definition ret {A} (a : A) : M A := fun s => (Ok a, s, []).

Definition throw {A} (e : JsError) : M A := fun s => (Throw e, s, []).

Definition bind {A B} (m : M A) (f : A -> M B) : M B :=
  fun s =>
    match m s with
    | (Ok a, s1, t1) => let '(r, s2, t2) := f a s1 in (r, s2, t1 ++ t2)
    | (Throw e, s1, t1) => (Throw e, s1, t1)
    end.

Definition get : M State := fun s => (Ok s, s, []).

Definition modify (f : State -> State) : M unit := fun s => (Ok tt, f s, []).

Definition emit (e : Effect) : M unit := fun s => (Ok tt, s, [e]).

Definition lift {A} (r : Res A) : M A := fun s => (r, s, []).

End Defs.

Notation "x <- m ;; k" := (bind m (fun x => k))
  (at level 100, m at next level, right associativity).
Notation "m ;;; k" := (bind m (fun _ => k))
  (at level 100, right associativity).

Section Code.
Context `{L : KeyLib}.

(** *** [Map] and [Set] operations used by the module *)

(** [map.get( k )] *)
Fixpoint map_get {V} (k : nat) (m : list (nat * V)) : option V :=
  match m with
  | [] => None
  | (k', v) :: rest => if (k' =? k)%nat then Some v else map_get k rest
  end.

(** [map.set( k, v )]: replaces the value of a present key where it
    stands, appends an absent one. *)
Fixpoint map_set {V} (k : nat) (v : V) (m : list (nat * V)) : list (nat * V) :=
  match m with
  | [] => [(k, v)]
  | (k', v') :: rest =>
      if (k' =? k)%nat then (k, v) :: rest else (k', v') :: map_set k v rest
  end.

(** The same for the [bindings] map, keyed by array identity. *)
Fixpoint bindings_set (keySets : KeySetsArr) (fn : Fn) (m : list (KeySetsArr * Fn))
  : list (KeySetsArr * Fn) :=
  match m with
  | [] => [(keySets, fn)]
  | (k', v') :: rest =>
      if (arr_ref k' =? arr_ref keySets)%nat then (k', fn) :: rest
      else (k', v') :: bindings_set keySets fn rest
  end.

(** [set.add( x )] and [set.delete( x )] *)
Definition set_add (x : Instance) (l : list Instance) : list Instance :=
  if bool_decide (x ∈ l) then l else l ++ [x].

Definition set_delete (x : Instance) (l : list Instance) : list Instance :=
  filter (fun y => y ≠ x) l.

(** *** The functions of the module *)

Definition getBinding (target : nat) (s : State) : option Handler :=
  map_get target (_handlers s).

(** Writes through the handler object held in the map. *)
Definition update_handler (target : nat) (h : Handler) : M unit :=
  modify (fun s => with_handlers (map_set target h (_handlers s)) s).

Definition _addInstance (target : Instance) : M unit :=
  s <- get ;;
  match getBinding (prototype target) s with
  | None => throw TypeError
  | Some h =>
      update_handler (prototype target)
        {| bindings := bindings h; instances := set_add target (instances h) |}
  end.

Definition _deleteInstance (target : Instance) : M bool :=
  s <- get ;;
  match getBinding (prototype target) s with
  | None => throw TypeError
  | Some h =>
      update_handler (prototype target)
        {| bindings := bindings h; instances := set_delete target (instances h) |} ;;;
      ret (bool_decide (target ∈ instances h))
  end.

(** [target === node || node.contains( target )]; the click target is a
    node, so a [null] [node] fails the comparison and is dereferenced. *)
Definition _findFocused (dom : Dom) (target : nat) (instance : Instance) : Res bool :=
  match findDOMNode dom instance with
  | None => Throw TypeError
  | Some node => Ok ((target =? node)%nat || contains dom node target)
  end.

Definition _bindKeys : M unit :=
  s <- get ;;
  if negb (_keysBound s) then modify (with_keys true (S (doc_keydown s)))
  else ret tt.

Definition _unbindKeys : M unit :=
  s <- get ;;
  if _keysBound s then modify (with_keys false (pred (doc_keydown s)))
  else ret tt.

Definition _bindClicks : M unit :=
  s <- get ;;
  if negb (_clicksBound s) then modify (with_clicks true (S (doc_click s)))
  else ret tt.

(** [[ ..._handlers ].some( ( [ , { instances } ] ) => instances.size )] *)
Definition some_instances (hs : list (nat * Handler)) : bool :=
  existsb (fun '(_, h) => negb (length (instances h) =? 0)%nat) hs.

Definition _unbindClicks : M unit :=
  s <- get ;;
  if _clicksBound s && negb (some_instances (_handlers s))
  then modify (with_clicks false (pred (doc_click s)))
  else ret tt.

Definition _activate (instance : Focus) : M unit :=
  emit (Activate instance) ;;;
  modify (with_focused instance) ;;;
  match instance with
  | FInst _ => _bindKeys
  | FNull | FUndefined => _unbindKeys
  end.

(** [[ ...instances ].find( findFocused )] *)
Fixpoint find (dom : Dom) (target : nat) (l : list Instance) : Res Focus :=
  match l with
  | [] => Ok FUndefined
  | instance :: rest =>
      match _findFocused dom target instance with
      | Throw e => Throw e
      | Ok true => Ok (FInst instance)
      | Ok false => find dom target rest
      end
  end.

(** The [for ... of _handlers] loop of [_handleClick]. *)
Fixpoint _handleClick_loop (dom : Dom) (target : nat) (hs : list (nat * Handler))
    (focusedInstance : Focus) : Res Focus :=
  match hs with
  | [] => Ok focusedInstance
  | (_, h) :: rest =>
      match find dom target (instances h) with
      | Throw e => Throw e
      | Ok (FInst i) => Ok (FInst i)
      | Ok f => _handleClick_loop dom target rest f
      end
  end.

Definition _handleClick (dom : Dom) (target : nat) : M unit :=
  s <- get ;;
  focusedInstance <- lift (_handleClick_loop dom target (_handlers s) FNull) ;;
  _activate focusedInstance.

(** [arr.indexOf( x )] with strict equality; [undefined] equals no
    string. *)
Fixpoint indexOf_from (i : Z) (arr : list string) (x : option string) : Z :=
  match arr with
  | [] => (-1)%Z
  | y :: rest =>
      if bool_decide (x = Some y) then i else indexOf_from (i + 1)%Z rest x
  end.

Definition indexOf (arr : list string) (x : option string) : Z :=
  indexOf_from 0%Z arr x.

(** [!n] for a number [n]. *)
Definition not_number (n : Z) : bool := (n =? 0)%Z.

Definition _shouldConsider (event : Event EventData) : bool :=
  let notEnterable :=
    not_number (Z.lnot (indexOf ["INPUT"; "SELECT"; "TEXTAREA"] (target_tagName event))) in
  notEnterable.

(** [bindings.forEach( ( fn, keySets ) => ... )]; [keySets] is an array,
    hence truthy, so [!keySets] is [false]. *)
Fixpoint forEach_binding (this : Instance) (event : Event EventData)
    (bs : list (KeySetsArr * Fn)) : M unit :=
  match bs with
  | [] => ret tt
  | (keySets, fn) :: rest =>
      (if false || existsb (fun keySet => matchKeys keySet event) (elems keySets)
       then emit (Call fn this event)
       else ret tt) ;;;
      forEach_binding this event rest
  end.

Definition _handleKeyDown (event : Event EventData) : M unit :=
  if _shouldConsider event then
    s <- get ;;
    match _focusedInstance s with
    | FNull | FUndefined => throw TypeError
    | FInst i =>
        match getBinding (prototype i) s with
        | None => throw TypeError
        | Some h => forEach_binding i event (bindings h)
        end
    end
  else ret tt.

(** [element.onfocus = onFocus( element )] for each focusable element:
    the new handler activates [instance], then calls the previous one. *)
Fixpoint install_onfocus (instance : Instance) (els : list nat)
    (m : gmap nat (list Instance)) : gmap nat (list Instance) :=
  match els with
  | [] => m
  | element :: rest =>
      install_onfocus instance rest (<[element := instance :: default [] (m !! element)]> m)
  end.

Definition _bindInputs (dom : Dom) (instance : Instance) : M unit :=
  if has_querySelectorAll dom then
    match findDOMNode dom instance with
    | None => ret tt
    | Some node =>
        let focusables := querySelectorAll dom node in
        if negb (length focusables =? 0)%nat
        then modify (fun s => with_onfocus (install_onfocus instance focusables (onfocus s)) s)
        else ret tt
    end
  else ret tt.

(** [!keys ? [ null ] : parseKeys( keys )]; [keys] is [None] when the
    argument is absent (falsy). *)
Definition parsed (keys : option Keys) : list (option KeySet) :=
  match keys with None => [None] | Some k => map Some (parseKeys k) end.

(** The array of key-sets is a new object on every call. *)
Definition setBinding (keys : option Keys) (fn : Fn) (target : nat) : M unit :=
  s0 <- get ;;
  let keySets := {| arr_ref := next_ref s0; elems := parsed keys |} in
  modify (with_next_ref (S (next_ref s0))) ;;;
  s <- get ;;
  let handler :=
    match getBinding target s with
    | Some h => h
    | None => {| bindings := []; instances := [] |}
    end in
  update_handler target
    {| bindings := bindings_set keySets fn (bindings handler);
       instances := instances handler |}.

Definition onMount (dom : Dom) (instance : Instance) : M unit :=
  _bindClicks ;;;
  _bindInputs dom instance ;;;
  _addInstance instance ;;;
  modify (fun s => with_timers (timers s ++ [instance]) s).

Definition onUnmount (instance : Instance) : M unit :=
  _deleteInstance instance ;;;
  _unbindClicks ;;;
  s <- get ;;
  match _focusedInstance s with
  | FInst i => if bool_decide (i = instance) then _activate FNull else ret tt
  | FNull | FUndefined => ret tt
  end.

(** *** The environment driving the module *)

(** A keydown on the document reaches [_handleKeyDown] while it is
    registered. *)
Definition dispatch_keydown (event : Event EventData) : M unit :=
  s <- get ;;
  if (doc_keydown s =? 0)%nat then ret tt else _handleKeyDown event.

Definition dispatch_click (dom : Dom) (target : nat) : M unit :=
  s <- get ;;
  if (doc_click s =? 0)%nat then ret tt else _handleClick dom target.

(** The oldest pending timer callback runs: [() => _activate( instance )]. *)
Definition fire_timer : M unit :=
  s <- get ;;
  match timers s with
  | [] => ret tt
  | instance :: rest => modify (with_timers rest) ;;; _activate (FInst instance)
  end.

(** A focus event on an element runs the chain of wrappers on it. *)
Fixpoint run_onfocus (chain : list Instance) : M unit :=
  match chain with
  | [] => ret tt
  | instance :: prev => _activate (FInst instance) ;;; run_onfocus prev
  end.

Definition dispatch_focus (element : nat) : M unit :=
  s <- get ;;
  run_onfocus (default [] (onfocus s !! element)).

(** What can happen to the module, one call at a time. *)
Inductive Op :=
  | OSetBinding (keys : option Keys) (fn : Fn) (target : nat)
  | OMount (dom : Dom) (instance : Instance)
  | OUnmount (instance : Instance)
  | OClick (dom : Dom) (target : nat)
  | OKeyDown (event : Event EventData)
  | OFocus (element : nat)
  | OTimer.

Definition step (op : Op) : M unit :=
  match op with
  | OSetBinding keys fn target => setBinding keys fn target
  | OMount dom instance => onMount dom instance
  | OUnmount instance => onUnmount instance
  | OClick dom target => dispatch_click dom target
  | OKeyDown event => dispatch_keydown event
  | OFocus element => dispatch_focus element
  | OTimer => fire_timer
  end.

(** A sequence of calls; an error thrown by one ends that call only. *)
Fixpoint run (ops : list Op) (s : State) : State * list Effect :=
  match ops with
  | [] => (s, [])
  | op :: rest =>
      let '(_, s1, t1) := step op s in
      let '(s2, t2) := run rest s1 in
      (s2, t1 ++ t2)
  end.

(** *** Observations on states and traces *)

Definition is_inst (f : Focus) : bool :=
  match f with FInst _ => true | FNull | FUndefined => false end.

(** The registrations on the document agree with the two flags. *)
Definition consistent (s : State) : Prop :=
  doc_click s = (if _clicksBound s then 1 else 0)
  ∧ doc_keydown s = (if _keysBound s then 1 else 0).

(** While some class has an instance the click flag is set. *)
Definition tracked_implies_bound (s : State) : Prop :=
  some_instances (_handlers s) = true → _clicksBound s = true.

(** The keydown flag is set exactly while an instance is focused. *)
Definition keys_follow_focus (s : State) : Prop :=
  _keysBound s = is_inst (_focusedInstance s).

(** Every array held as a key of a [bindings] map was created before
    the next one to be created. *)
Definition refs_fresh (s : State) : Prop :=
  ∀ target h keySets fn,
    (target, h) ∈ _handlers s → (keySets, fn) ∈ bindings h →
    arr_ref keySets < next_ref s.

(** No callback is invoked before an instance is activated. *)
Fixpoint guarded (t : list Effect) : bool :=
  match t with
  | [] => true
  | Call _ _ _ :: _ => false
  | Activate (FInst _) :: _ => true
  | Activate _ :: rest => guarded rest
  end.

(** No callback is invoked and no instance is activated. *)
Fixpoint silent (t : list Effect) : bool :=
  match t with
  | [] => true
  | Call _ _ _ :: _ => false
  | Activate f :: rest => negb (is_inst f) && silent rest
  end.

(** A binding whose key-sets match the event, as the keydown handler
    tests it. *)
Definition matches (event : Event EventData) (b : KeySetsArr * Fn) : bool :=
  existsb (fun keySet => matchKeys keySet event) (elems b.1).

(** All tracked instances, in the order in which a click visits them:
    class by class, and within a class in the order of insertion. *)
Definition tracked (s : State) : list Instance :=
  flat_map (fun '(_, h) => instances h) (_handlers s).

(** The click target lies in the rendered subtree of the instance. *)
Definition hits (dom : Dom) (target : nat) (i : Instance) : bool :=
  match findDOMNode dom i with
  | Some node => (target =? node)%nat || contains dom node target
  | None => false
  end.

(** The argument of the last call of [_activate] in a trace, or [a] when
    the trace has none. *)
Fixpoint focus_after (a : Focus) (t : list Effect) : Focus :=
  match t with
  | [] => a
  | Call _ _ _ :: rest => focus_after a rest
  | Activate b :: rest => focus_after b rest
  end.

(** Every callback of the trace is invoked on the instance given to the
    last call of [_activate] before it, [a] standing for the activation
    before the trace. *)
Fixpoint calls_follow (a : Focus) (t : list Effect) : Prop :=
  match t with
  | [] => True
  | Call _ this _ :: rest => a = FInst this ∧ calls_follow a rest
  | Activate b :: rest => calls_follow b rest
  end.

(** The instance set of every class in [_handlers] is empty. *)
Definition no_instance_left (s : State) : Prop :=
  ∀ target h, (target, h) ∈ _handlers s → instances h = [].

End Code.
End Listeners.

(** ** A concrete library, for evaluating the code on examples

    Key specifications and key-sets are strings, a key-set matches the
    event carrying the same string, [null] matches every event, and
    identifiers count up from 1. *)
Definition demo_lib : KeyLib :=
  {| Keys := string;
     KeySet := string;
     EventData := string;
     parseKeys := fun k => [k];
     matchKeys := fun keySet event =>
       match keySet with
       | Some k => String.eqb k (ev_data event)
       | None => true
       end;
     uuid := fun n => N.of_nat (S n) |}.

Definition demo_event (tag : string) (key : string) : Event (@EventData demo_lib) :=
  {| target_tagName := Some tag; ev_data := key |}.

(** A class prototype (object 10) and four of its instances, for the
    store. *)
Definition demo_class : Store.Obj := {| Store.self := 10; Store.chain := [] |}.
Definition demo_a : Store.Value := Store.VObj {| Store.self := 1; Store.chain := [10] |}.
Definition demo_b : Store.Value := Store.VObj {| Store.self := 2; Store.chain := [10] |}.
Definition demo_c : Store.Value := Store.VObj {| Store.self := 3; Store.chain := [10] |}.
Definition demo_d : Store.Value := Store.VObj {| Store.self := 4; Store.chain := [10] |}.

(** The store with the given activation stack and nothing else. *)
Definition demo_stack (arr : list Store.Value) : @Store.State demo_lib :=
  {| Store._handlers2 := []; Store._instances2 := arr;
     Store.heap := ∅; Store.uuid_calls := 0 |}.

(** An instance of class 100 in the listeners module, rendered as node 1
    with one focusable element, and the calls that bind key "a" for its
    class, mount it and let the timer activate it. *)
Definition demo_instance : Listeners.Instance :=
  {| Listeners.inst_id := 1; Listeners.prototype := 100 |}.

Definition demo_dom : Listeners.Dom :=
  {| Listeners.has_querySelectorAll := true;
     Listeners.findDOMNode := fun i => Some (Listeners.inst_id i);
     Listeners.contains := fun _ _ => false;
     Listeners.querySelectorAll := fun node => [node + 50] |}.

Definition demo_ops : list (@Listeners.Op demo_lib) :=
  [Listeners.OSetBinding (L := demo_lib) (Some "a") 7 100;
   Listeners.OMount demo_dom demo_instance;
   Listeners.OTimer].

(** The first instance of the store examples as an object, and the store
    after two registrations for its class. *)
Definition demo_obj : Store.Obj := {| Store.self := 1; Store.chain := [10] |}.

Definition demo_store : @Store.State demo_lib :=
  Store.setBinding (L := demo_lib) (Some "b") 2 demo_class
    (Store.setBinding (L := demo_lib) (Some "a") 1 demo_class Store.init).

(** A second instance of class 100 and a page on which no instance is
    rendered. *)
Definition demo_instance2 : Listeners.Instance :=
  {| Listeners.inst_id := 2; Listeners.prototype := 100 |}.

Definition demo_dom_unrendered : Listeners.Dom :=
  {| Listeners.has_querySelectorAll := true;
     Listeners.findDOMNode := fun _ => None;
     Listeners.contains := fun _ _ => false;
     Listeners.querySelectorAll := fun _ => [] |}.

(** The listeners module after key "a" was bound for class 100, and after
    the instance was mounted and activated as well; the array of
    key-sets created by that registration. *)
Definition demo_bound : @Listeners.State demo_lib :=
  (Listeners.run (L := demo_lib)
     [Listeners.OSetBinding (L := demo_lib) (Some "a") 7 100] Listeners.init).1.

Definition demo_focused : @Listeners.State demo_lib :=
  (Listeners.run (L := demo_lib) demo_ops Listeners.init).1.

Definition demo_keySets : @Listeners.KeySetsArr demo_lib :=
  @Listeners.Build_KeySetsArr demo_lib 0 [Some ("a" : @KeySet demo_lib)].

(** Two more class prototypes for the store (objects 20 and 30) with an
    instance each, and the store in which key "a" is bound for class 10
    (callback 7) and for class 30 (callback 9), and key "b" for class 20
    (callback 8). *)
Definition demo_class_x : Store.Obj := {| Store.self := 20; Store.chain := [] |}.
Definition demo_class_q : Store.Obj := {| Store.self := 30; Store.chain := [] |}.
Definition demo_x : Store.Value := Store.VObj {| Store.self := 5; Store.chain := [20] |}.
Definition demo_q : Store.Value := Store.VObj {| Store.self := 6; Store.chain := [30] |}.

Definition demo_bindings : @Store.State demo_lib :=
  Store.setBinding (L := demo_lib) (Some "a") 9 demo_class_q
    (Store.setBinding (L := demo_lib) (Some "b") 8 demo_class_x
      (Store.setBinding (L := demo_lib) (Some "a") 7 demo_class Store.init)).

(** An instance of class 200, for which nothing is bound in the
    listeners module. *)
Definition demo_stranger : Listeners.Instance :=
  {| Listeners.inst_id := 3; Listeners.prototype := 200 |}.

(** * Properties of the store *)

Section StoreFacts.
Context `{L : KeyLib}.
Import Store.

Implicit Types (s : State) (arr : list Value) (v x : Value) (o : Obj).

Lemma loose_eq_refl x : loose_eq x x = true.
Proof. destruct x; simpl; try reflexivity. by apply bool_decide_eq_true. Qed.

(** The scan only ever drops elements from the end. *)
Lemma scan_pop_prefix i x arr : ∃ k, scan_pop i x arr = take k arr.
Proof.
  revert arr. induction i as [|j IH]; intros arr; simpl.
  - exists (length arr). by rewrite firstn_all.
  - destruct (loose_eq (index arr j) x).
    + destruct (IH (pop arr)) as [k ->]. unfold pop.
      rewrite removelast_firstn_len, take_take. eauto.
    + apply IH.
Qed.

Lemma activate_one_snoc arr x : ∃ k, activate_one arr x = take k arr ++ [x].
Proof.
  unfold activate_one. destruct (scan_pop_prefix (length arr) x arr) as [k ->]. eauto.
Qed.

Lemma activate_One v s :
  _instances2 (activate (One v) s) = activate_one (_instances2 s) v.
Proof. reflexivity. Qed.

Lemma index_snoc arr x : index (arr ++ [x]) (length arr) = x.
Proof. unfold index. by rewrite list_lookup_middle. Qed.

(** A scan that meets no equal entry leaves the array as it is. *)
Lemma scan_pop_no_match i x arr :
  (∀ j, j < i → loose_eq (index arr j) x = false) → scan_pop i x arr = arr.
Proof.
  induction i as [|i IH]; simpl; intros Hno; [done|].
  rewrite (Hno i) by lia. apply IH. intros j Hj. apply Hno. lia.
Qed.

Lemma index_app_l arr arr' j : j < length arr → index (arr ++ arr') j = index arr j.
Proof. intros Hj. unfold index. by rewrite lookup_app_l. Qed.

(** Activating the entry on top, when it occurs nowhere else, leaves the
    stack as it is. *)
Lemma activate_one_top pre x :
  (∀ j, j < length pre → loose_eq (index pre j) x = false) →
  activate_one (pre ++ [x]) x = pre ++ [x].
Proof.
  intros Hno. unfold activate_one.
  rewrite length_app, Nat.add_1_r. simpl.
  rewrite index_snoc, loose_eq_refl. unfold pop. rewrite removelast_last.
  by rewrite scan_pop_no_match.
Qed.

(** Activating the entry just below the top pops the top one: the
    activated value is there twice and its neighbour is gone. *)
Lemma activate_one_below_top pre x y :
  loose_eq y x = false →
  (∀ j, j < length pre → loose_eq (index pre j) x = false) →
  activate_one (pre ++ [x; y]) x = pre ++ [x; x].
Proof.
  intros Hy Hno. unfold activate_one.
  replace (pre ++ [x; y]) with ((pre ++ [x]) ++ [y]) by (by rewrite <- app_assoc).
  rewrite length_app, Nat.add_1_r. simpl. rewrite index_snoc, Hy.
  rewrite length_app, Nat.add_1_r. simpl.
  rewrite index_app_l by (rewrite length_app; simpl; lia).
  rewrite index_snoc, loose_eq_refl. unfold pop. rewrite removelast_last.
  rewrite scan_pop_no_match.
  - by rewrite <- app_assoc.
  - intros j Hj. rewrite index_app_l by done. by apply Hno.
Qed.

(** Activations only drop entries from the top and push on the top, so
    the stack always lists (some of) the activated values in the order of
    the activations that pushed them. *)
Lemma activate_one_sublist arr x (h : list Value) :
  arr `sublist_of` h → activate_one arr x `sublist_of` h ++ [x].
Proof.
  intros Hsub. destruct (activate_one_snoc arr x) as [k ->].
  apply sublist_app; [|done]. etrans; [apply sublist_take|done].
Qed.

Lemma fold_activate_one_sublist (vs : list Value) arr (h : list Value) :
  arr `sublist_of` h → fold_left activate_one vs arr `sublist_of` h ++ vs.
Proof.
  revert arr h. induction vs as [|v vs IH]; intros arr h Hsub; simpl.
  - by rewrite app_nil_r.
  - replace (h ++ v :: vs) with ((h ++ [v]) ++ vs) by (by rewrite <- app_assoc).
    by apply IH, activate_one_sublist.
Qed.

Lemma activate_sublist (instances : Arg) s (h : list Value) :
  _instances2 s `sublist_of` h →
  _instances2 (activate instances s) `sublist_of` h ++ concat instances.
Proof.
  intros Hsub. unfold activate.
  destruct (length (concat instances) =? 0) eqn:E.
  - apply Nat.eqb_eq, nil_length_inv in E. by rewrite E, app_nil_r.
  - simpl. by apply fold_activate_one_sublist.
Qed.

Lemma activations_sublist (calls : list Arg) s (h : list Value) :
  _instances2 s `sublist_of` h →
  _instances2 (fold_left (fun s0 instances => activate instances s0) calls s)
    `sublist_of` h ++ mjoin (map concat calls).
Proof.
  revert s h. induction calls as [|c calls IH]; intros s h Hsub; simpl.
  - by rewrite app_nil_r.
  - rewrite app_assoc. by apply IH, activate_sublist.
Qed.

Lemma get_uuid_insert_self (h : gmap nat N) o u :
  get_uuid (<[self o := u]> h) o = Some u.
Proof. unfold get_uuid. simpl. by rewrite lookup_insert_eq. Qed.

Lemma uuid_eq_refl (p : option N) : uuid_eq p p = true.
Proof. destruct p; simpl; [apply N.eqb_refl | reflexivity]. Qed.

(** The backwards scan of [getBinding] stops at the record pushed last
    when it carries the identifier looked for. *)
Lemma getBinding_loop_snoc (hs : list Hand) (hand : Hand) (u : option N) :
  uuid_eq (targetUuid hand) u = true →
  getBinding_loop (hs ++ [hand]) u (length (hs ++ [hand]))
  = Ok (BPairs [(keySets hand, fn hand)]).
Proof.
  intros Hu. rewrite length_app, Nat.add_1_r. simpl.
  by rewrite list_lookup_middle, Hu.
Qed.

Lemma store_set_then_get keys f o s :
  (∀ n, uuid n ≠ 0%N) →
  getBinding (VObj o) (setBinding keys f o s) = Ok (BPairs [(parsed keys, f)]).
Proof.
  intros Hgen. unfold getBinding, setBinding.
  destruct (truthy (get_uuid (heap s) o)) eqn:Ht; cbn [negb heap _handlers2].
  - rewrite Ht. cbn [negb]. rewrite getBinding_loop_snoc; [done|apply uuid_eq_refl].
  - rewrite get_uuid_insert_self. cbn [truthy].
    assert ((uuid (uuid_calls s) =? 0)%N = false) as -> by (apply N.eqb_neq, Hgen).
    cbn [negb]. rewrite getBinding_loop_snoc; [done|apply uuid_eq_refl].
Qed.

(** Of two registrations for one target, [getBinding] returns the later
    one alone. *)
Lemma store_later_registration_shadows keys1 f1 keys2 f2 o s :
  (∀ n, uuid n ≠ 0%N) →
  getBinding (VObj o) (setBinding keys2 f2 o (setBinding keys1 f1 o s))
  = Ok (BPairs [(parsed keys2, f2)]).
Proof. intros Hgen. by apply store_set_then_get. Qed.

Lemma for_of_Some event (bs : list (KeySets * Fn)) f :
  for_of event bs = Some f →
  ∃ ks, (ks, f) ∈ bs ∧ binding_matches event ks = true.
Proof.
  induction bs as [|[ks g] bs IH]; simpl; [done|].
  destruct (binding_matches event ks) eqn:Hm.
  - intros [= ->]. exists ks. split; [left|done].
  - intros H. destruct (IH H) as (ks' & Hin & Hm'). exists ks'. split; [by right|done].
Qed.

(** What a successful scan of the stack has seen: the entry it returns,
    and above it only entries whose bindings do not match. *)
Lemma findBindingForEvent_loop_Some event s n f inst :
  findBindingForEvent_loop event s n = Ok (Some (f, inst)) →
  ∃ i bs, i < n ∧ index (_instances2 s) i = inst
    ∧ getBinding inst s = Ok (BPairs bs) ∧ for_of event bs = Some f
    ∧ ∀ j, i < j < n →
        ∃ bs', getBinding (index (_instances2 s) j) s = Ok (BPairs bs')
               ∧ for_of event bs' = None.
Proof.
  induction n as [|n IH]; simpl; [done|].
  destruct (getBinding (index (_instances2 s) n) s) as [[| |bs]|] eqn:Hg; try done.
  destruct (for_of event bs) as [g|] eqn:Hf.
  - intros [= -> <-]. exists n, bs. repeat split; [lia|done..|]. intros j Hj. lia.
  - intros H. destruct (IH H) as (i & bs0 & Hi & Hidx & Hg0 & Hf0 & Habove).
    exists i, bs0. repeat split; [lia|done..|].
    intros j Hj. destruct (decide (j = n)) as [->|Hne]; [eauto|apply Habove; lia].
Qed.

End StoreFacts.

(** * Properties of the listeners module *)

Section ListenersFacts.
Context `{L : KeyLib}.
Import Listeners.

Implicit Types (s : State) (i instance : Instance) (t : list Effect) (f : Fn) (a : Focus).

Ltac unfold_m := unfold bind, ret, throw, get, modify, emit, lift in *.

(** [_activate] always returns, leaves one trace entry and touches only
    the focused pointer and the keydown registration. *)
Lemma _activate_spec a s :
  ∃ s', _activate a s = (Ok tt, s', [Activate a])
    ∧ _focusedInstance s' = a
    ∧ _handlers s' = _handlers s
    ∧ _clicksBound s' = _clicksBound s ∧ doc_click s' = doc_click s
    ∧ onfocus s' = onfocus s ∧ timers s' = timers s ∧ next_ref s' = next_ref s
    ∧ _keysBound s' = is_inst a
    ∧ doc_keydown s' =
        (if is_inst a
         then (if _keysBound s then doc_keydown s else S (doc_keydown s))
         else (if _keysBound s then pred (doc_keydown s) else doc_keydown s)).
Proof.
  unfold _activate, _bindKeys, _unbindKeys. unfold_m.
  destruct a, (_keysBound s) eqn:Hk; simpl; rewrite ?Hk; simpl;
    eexists; (split; [reflexivity|]); simpl; rewrite ?Hk; done.
Qed.

Lemma _activate_consistent a s :
  consistent s → consistent (_activate a s).1.2.
Proof.
  intros [Hc Hk]. destruct (_activate_spec a s) as (s' & -> & _ & _ & Hcb & Hdc & _ & _ & _ & Hkb & Hdk).
  simpl. split; [by rewrite Hdc, Hcb|].
  rewrite Hdk, Hkb, Hk. by destruct (is_inst a), (_keysBound s).
Qed.

(** The callbacks run by the [forEach] of [_handleKeyDown]: the state is
    untouched and every invocation has the given receiver and event and
    a callback of the traversed bindings whose key-sets match. *)
Lemma forEach_binding_spec this event (bs : list (KeySetsArr * Fn)) s :
  ∃ t, forEach_binding this event bs s = (Ok tt, s, t)
    ∧ ∀ e, e ∈ t →
        ∃ keySets fn, e = Call fn this event ∧ (keySets, fn) ∈ bs
          ∧ existsb (fun keySet => matchKeys keySet event) (elems keySets) = true.
Proof.
  induction bs as [|[ks g] bs IH]; simpl.
  - exists []. split; [done|]. intros e He. by apply elem_of_nil in He.
  - destruct IH as (t & Ht & Hall). unfold_m.
    destruct (existsb _ (elems ks)) eqn:Hm; simpl; rewrite Ht.
    + exists (Call g this event :: t). split; [done|].
      intros e [->|He]%elem_of_cons.
      * exists ks, g. repeat split; [left|done].
      * destruct (Hall e He) as (ks' & g' & -> & Hin & Hm'). exists ks', g'.
        repeat split; [by right|done].
    + exists t. split; [done|].
      intros e He. destruct (Hall e He) as (ks' & g' & -> & Hin & Hm'). exists ks', g'.
      repeat split; [by right|done].
Qed.

(** A keydown changes nothing in the state. *)
Lemma dispatch_keydown_state event s : (dispatch_keydown event s).1.2 = s.
Proof.
  unfold dispatch_keydown, _handleKeyDown. unfold_m.
  destruct (doc_keydown s =? 0), (_shouldConsider event), (_focusedInstance s);
    simpl; try done.
  destruct (getBinding _ s) as [h|]; simpl; [|done].
  by destruct (forEach_binding_spec i event (bindings h) s) as (t & -> & _).
Qed.

(** A focus event runs a chain of activations. *)
Lemma run_onfocus_spec (P : State → Prop) chain s :
  (∀ a s0, P s0 → P (_activate a s0).1.2) →
  P s →
  ∃ s', run_onfocus chain s = (Ok tt, s', map (fun i => Activate (FInst i)) chain)
    ∧ P s' ∧ (chain = [] → s' = s)
    ∧ (chain ≠ [] → is_inst (_focusedInstance s') = true).
Proof.
  intros Hact. revert s. induction chain as [|i chain IH]; intros s HP; simpl.
  - exists s. done.
  - unfold_m. pose proof (Hact (FInst i) s HP) as HP1.
    destruct (_activate_spec (FInst i) s) as (s1 & E1 & Hf1 & _). rewrite E1 in *. simpl in HP1.
    destruct (IH s1 HP1) as (s2 & E2 & HP2 & Hnil & Hne). rewrite E2.
    exists s2. repeat split; [done|done|].
    intros _. destruct chain as [|j chain]; [|by apply Hne].
    rewrite (Hnil eq_refl), Hf1. done.
Qed.

Ltac exec :=
  unfold step, setBinding, onMount, onUnmount, dispatch_click, dispatch_keydown,
    fire_timer, _handleClick, _handleKeyDown, _addInstance, _deleteInstance,
    _bindInputs, _bindClicks, _unbindClicks, _activate, _bindKeys, _unbindKeys,
    update_handler;
  unfold_m; repeat (simpl; case_match); simplify_eq/=.

Ltac solve_consistent Hs :=
  destruct Hs as [? ?]; unfold consistent; simpl;
  destruct (_clicksBound _), (_keysBound _); simpl in *;
  try done; split; (done || lia).

Lemma step_consistent op s : consistent s → consistent (step op s).1.2.
Proof.
  intros Hs. destruct op as [keys g target|dom i|i|dom target|event|el|].
  - exec; solve_consistent Hs.
  - exec; solve_consistent Hs.
  - exec; solve_consistent Hs.
  - exec; solve_consistent Hs.
  - simpl. by rewrite dispatch_keydown_state.
  - simpl. unfold dispatch_focus. unfold_m. simpl.
    destruct (run_onfocus_spec consistent (default [] (onfocus s !! el)) s)
      as (s' & -> & Hs' & _); [|done..].
    intros a s0. apply _activate_consistent.
  - exec; solve_consistent Hs.
Qed.

Lemma run_consistent ops s : consistent s → consistent (run ops s).1.
Proof.
  revert s. induction ops as [|op ops IH]; intros s Hs; simpl; [done|].
  pose proof (step_consistent op s Hs) as H1.
  destruct (step op s) as [[r s1] t1]. simpl in H1.
  specialize (IH s1 H1). by destruct (run ops s1).
Qed.

Lemma init_consistent : consistent init.
Proof. by split. Qed.

(** *** The maps *)

Lemma map_get_set_eq {V} k (v : V) m : map_get k (map_set k v m) = Some v.
Proof.
  induction m as [|[k' v'] m IH]; simpl.
  - by rewrite Nat.eqb_refl.
  - destruct (k' =? k) eqn:E; simpl; [by rewrite Nat.eqb_refl|by rewrite E].
Qed.

Lemma map_get_elem {V} k (v : V) m : map_get k m = Some v → (k, v) ∈ m.
Proof.
  induction m as [|[k' v'] m IH]; simpl; [done|].
  destruct (k' =? k) eqn:E.
  - intros [= ->]. apply Nat.eqb_eq in E as ->. left.
  - intros H. right. by apply IH.
Qed.

Lemma map_set_elem {V} k (v : V) m p w :
  (p, w) ∈ map_set k v m → (p, w) = (k, v) ∨ (p, w) ∈ m.
Proof.
  induction m as [|[k' v'] m IH]; simpl.
  - intros ->%list_elem_of_singleton. by left.
  - destruct (k' =? k).
    + intros [->|H]%elem_of_cons; [by left|right; by right].
    + intros [->|H]%elem_of_cons; [right; left|].
      destruct (IH H) as [->|?]; [by left|right; by right].
Qed.

Lemma bindings_set_elem keySets g (bs : list (KeySetsArr * Fn)) ks f :
  (ks, f) ∈ bindings_set keySets g bs → ks = keySets ∨ ∃ f', (ks, f') ∈ bs.
Proof.
  induction bs as [|[k' v'] bs IH]; simpl.
  - intros [= -> ->]%list_elem_of_singleton. by left.
  - destruct (arr_ref k' =? arr_ref keySets).
    + intros [[= -> ->]|H]%elem_of_cons; right; eexists; [left|by right].
    + intros [[= -> ->]|H]%elem_of_cons; [right; eexists; left|].
      destruct (IH H) as [->|[f' ?]]; [by left|right; eexists; by right].
Qed.

(** Setting a key that is not yet in the map appends the entry. *)
Lemma bindings_set_fresh keySets g (bs : list (KeySetsArr * Fn)) :
  (∀ ks f, (ks, f) ∈ bs → arr_ref ks ≠ arr_ref keySets) →
  bindings_set keySets g bs = bs ++ [(keySets, g)].
Proof.
  induction bs as [|[k' v'] bs IH]; simpl; intros Hfresh; [done|].
  destruct (arr_ref k' =? arr_ref keySets) eqn:E.
  - apply Nat.eqb_eq in E. exfalso. eapply Hfresh; [left|done].
  - rewrite IH; [done|]. intros ks f Hin. apply (Hfresh ks f). by right.
Qed.

(** *** Identities of the key-set arrays *)

Lemma refs_fresh_update s target h' n' :
  refs_fresh s → next_ref s ≤ n' →
  (∀ ks f, (ks, f) ∈ bindings h' → arr_ref ks < n') →
  refs_fresh (with_handlers (map_set target h' (_handlers s)) (with_next_ref n' s)).
Proof.
  intros Hs Hn Hh' p h ks f [[= -> ->]|Hin]%map_set_elem Hks; simpl.
  - by eapply Hh'.
  - specialize (Hs p h ks f Hin Hks). lia.
Qed.

Lemma refs_fresh_frame s s' :
  refs_fresh s → _handlers s' = _handlers s → next_ref s' = next_ref s → refs_fresh s'.
Proof. intros Hs Hh Hn p h ks f. rewrite Hh, Hn. apply Hs. Qed.

Lemma setBinding_spec keys g target s :
  setBinding keys g target s =
    (Ok tt,
     with_handlers
       (map_set target
          {| bindings :=
               bindings_set {| arr_ref := next_ref s; elems := parsed keys |} g
                 (bindings (default {| bindings := []; instances := [] |}
                              (getBinding target s)));
             instances :=
               instances (default {| bindings := []; instances := [] |}
                            (getBinding target s)) |}
          (_handlers s))
       (with_next_ref (S (next_ref s)) s),
     []).
Proof.
  unfold setBinding, update_handler. unfold_m. simpl.
  change (getBinding target (with_next_ref (S (next_ref s)) s)) with (getBinding target s).
  by destruct (getBinding target s).
Qed.

Lemma refs_fresh_same_bindings s s' target h h' :
  refs_fresh s → map_get target (_handlers s) = Some h →
  _handlers s' = map_set target h' (_handlers s) → next_ref s' = next_ref s →
  bindings h' = bindings h →
  refs_fresh s'.
Proof.
  intros Hs Hg Hh Hn Hb p h0 ks f. rewrite Hh, Hn.
  intros [[= -> ->]|Hin]%map_set_elem Hks.
  - rewrite Hb in Hks. eapply Hs; [by apply map_get_elem|done].
  - by eapply Hs.
Qed.

Lemma setBinding_refs_fresh keys g target s :
  refs_fresh s → refs_fresh (setBinding keys g target s).1.2.
Proof.
  intros Hs. rewrite setBinding_spec. simpl.
  apply refs_fresh_update; [done|lia|].
  intros ks f [->|[f' Hin]]%bindings_set_elem; simpl; [lia|].
  destruct (getBinding target s) as [h|] eqn:Hg; simpl in Hin.
  - apply map_get_elem in Hg. specialize (Hs _ _ _ _ Hg Hin). lia.
  - by apply elem_of_nil in Hin.
Qed.

Ltac solve_refs_fresh Hs :=
  unfold getBinding in *; simpl in *;
  first
    [ by apply (refs_fresh_frame _ _ Hs)
    | eapply (refs_fresh_same_bindings _ _ _ _ _ Hs); [eassumption|reflexivity..] ].

Lemma step_refs_fresh op s : refs_fresh s → refs_fresh (step op s).1.2.
Proof.
  intros Hs. destruct op as [keys g target|dom i|i|dom target|event|el|].
  - by apply setBinding_refs_fresh.
  - exec; solve_refs_fresh Hs.
  - exec; solve_refs_fresh Hs.
  - exec; solve_refs_fresh Hs.
  - simpl. by rewrite dispatch_keydown_state.
  - simpl. unfold dispatch_focus. unfold_m. simpl.
    destruct (run_onfocus_spec refs_fresh (default [] (onfocus s !! el)) s)
      as (s' & -> & Hs' & _); [|done..].
    intros a s0 H0. destruct (_activate_spec a s0) as (s1 & -> & _ & Hh & _ & _ & _ & _ & Hn & _).
    by apply (refs_fresh_frame _ _ H0).
  - exec; solve_refs_fresh Hs.
Qed.

Lemma run_refs_fresh ops s : refs_fresh s → refs_fresh (run ops s).1.
Proof.
  revert s. induction ops as [|op ops IH]; intros s Hs; simpl; [done|].
  pose proof (step_refs_fresh op s Hs) as H1.
  destruct (step op s) as [[r s1] t1]. simpl in H1.
  specialize (IH s1 H1). by destruct (run ops s1).
Qed.

Lemma init_refs_fresh : refs_fresh init.
Proof. intros p h ks f Hin. by apply elem_of_nil in Hin. Qed.

(** *** Unmounting *)

Lemma onUnmount_throws i s :
  getBinding (prototype i) s = None → onUnmount i s = (Throw TypeError, s, []).
Proof.
  intros Hg. unfold onUnmount, _deleteInstance. unfold_m. by rewrite Hg.
Qed.

Lemma onUnmount_returns i s h :
  getBinding (prototype i) s = Some h →
  ∃ s' t, onUnmount i s = (Ok tt, s', t)
    ∧ _handlers s' =
        map_set (prototype i)
          {| bindings := bindings h; instances := set_delete i (instances h) |}
          (_handlers s)
    ∧ doc_click s' =
        (if _clicksBound s && negb (some_instances (_handlers s'))
         then pred (doc_click s) else doc_click s)
    ∧ (_focusedInstance s = FInst i →
         t = [Activate FNull] ∧ _focusedInstance s' = FNull
         ∧ _keysBound s' = false
         ∧ doc_keydown s' = (if _keysBound s then pred (doc_keydown s) else doc_keydown s))
    ∧ _clicksBound s' = _clicksBound s && some_instances (_handlers s').
Proof.
  intros Hg. unfold onUnmount, _deleteInstance, _unbindClicks, update_handler.
  unfold_m. rewrite Hg. simpl.
  set (hs' := map_set _ _ _).
  clearbody hs'.
  destruct (_clicksBound s && negb (some_instances hs')) eqn:Hc; simpl;
    destruct (_focusedInstance s) as [| |j] eqn:Hfoc; simpl;
    try (eexists _, _; split; [reflexivity|]; simpl; rewrite ?Hc;
         repeat split; try done; (revert Hc; by destruct (_clicksBound s), (some_instances hs'))).
  - case_bool_decide as Hj.
    + match goal with |- context [_activate FNull ?s0] =>
        destruct (_activate_spec FNull s0) as (s1 & -> & Hf & Hh & Hcb & Hdc & _ & _ & _ & Hkb & Hdk)
      end.
      exists s1, [Activate FNull]. simpl in *. rewrite Hh, Hdc, Hcb, Hc.
      repeat split; try done. (revert Hc; by destruct (_clicksBound s), (some_instances hs')).
    + eexists _, _; split; [reflexivity|]; simpl; rewrite ?Hc.
      repeat split; try congruence. (revert Hc; by destruct (_clicksBound s), (some_instances hs')).
  - case_bool_decide as Hj.
    + match goal with |- context [_activate FNull ?s0] =>
        destruct (_activate_spec FNull s0) as (s1 & -> & Hf & Hh & Hcb & Hdc & _ & _ & _ & Hkb & Hdk)
      end.
      exists s1, [Activate FNull]. simpl in *. rewrite Hh, Hdc, Hcb, Hc.
      repeat split; try done. (revert Hc; by destruct (_clicksBound s), (some_instances hs')).
    + eexists _, _; split; [reflexivity|]; simpl; rewrite ?Hc.
      repeat split; try congruence. (revert Hc; by destruct (_clicksBound s), (some_instances hs')).
Qed.

(** *** The click registration *)

Lemma step_click_mono op s :
  (∀ i, op ≠ OUnmount i) → doc_click s ≤ doc_click (step op s).1.2.
Proof.
  intros Hop. destruct op as [keys g target|dom i|i|dom target|event|el|].
  - exec; lia.
  - exec; lia.
  - by destruct (Hop i).
  - exec; lia.
  - simpl. by rewrite dispatch_keydown_state.
  - simpl. unfold dispatch_focus. unfold_m. simpl.
    destruct (run_onfocus_spec (fun s0 => doc_click s ≤ doc_click s0)
                (default [] (onfocus s !! el)) s) as (s' & -> & Hs' & _); [|done..].
    intros a s0 H0. destruct (_activate_spec a s0) as (s1 & -> & _ & _ & _ & Hdc & _).
    simpl. lia.
  - exec; lia.
Qed.

(** *** The click registration covers the tracked instances *)

Lemma some_instances_set_same target (h h' : Handler) hs :
  map_get target hs = Some h →
  length (instances h') = length (instances h) →
  some_instances (map_set target h' hs) = some_instances hs.
Proof.
  induction hs as [|[k v] hs IH]; simpl; [done|].
  destruct (k =? target) eqn:E; simpl.
  - intros [= ->] Hl. by rewrite Hl.
  - intros Hg Hl. by rewrite IH.
Qed.

Lemma some_instances_set_new target (h' : Handler) hs :
  map_get target hs = None → instances h' = [] →
  some_instances (map_set target h' hs) = some_instances hs.
Proof.
  induction hs as [|[k v] hs IH]; simpl.
  - intros _ ->. done.
  - destruct (k =? target) eqn:E; simpl; [done|].
    intros Hg Hl. by rewrite IH.
Qed.

Lemma some_instances_set_delete target i (h : Handler) hs :
  map_get target hs = Some h →
  some_instances
    (map_set target {| bindings := bindings h; instances := set_delete i (instances h) |} hs)
  = true →
  some_instances hs = true.
Proof.
  induction hs as [|[k v] hs IH]; simpl; [done|].
  destruct (k =? target) eqn:E; simpl.
  - intros [= ->]. destruct (length (set_delete i (instances h))) eqn:El; simpl.
    + intros ->. apply orb_true_r.
    + intros _. destruct (instances h); [done|]. done.
  - intros Hg. destruct (negb (length (instances v) =? 0)); simpl; [done|]. by apply IH.
Qed.

Lemma setBinding_tracked_implies_bound keys g target s :
  tracked_implies_bound s → tracked_implies_bound (setBinding keys g target s).1.2.
Proof.
  intros Hs. rewrite setBinding_spec. unfold tracked_implies_bound. simpl.
  destruct (getBinding target s) as [h|] eqn:Hg; simpl.
  - by rewrite (some_instances_set_same target h).
  - by rewrite some_instances_set_new.
Qed.

Lemma onMount_clicks_bound dom i s : _clicksBound (onMount dom i s).1.2 = true.
Proof.
  exec; try done;
    match goal with H : negb ?b = false |- _ => by destruct b end.
Qed.

Lemma step_tracked_implies_bound op s :
  tracked_implies_bound s → tracked_implies_bound (step op s).1.2.
Proof.
  intros Hs. destruct op as [keys g target|dom i|i|dom target|event|el|].
  - by apply setBinding_tracked_implies_bound.
  - intros _. apply onMount_clicks_bound.
  - simpl. destruct (getBinding (prototype i) s) as [h|] eqn:Hg.
    + destruct (onUnmount_returns i s h Hg) as (s' & t & -> & Hh & _ & _ & Hcb).
      simpl. intros Hsome. rewrite Hcb, Hsome, andb_true_r.
      rewrite Hh in Hsome. apply (some_instances_set_delete _ _ _ _ Hg) in Hsome.
      by apply Hs.
    + by rewrite (onUnmount_throws i s Hg).
  - simpl. unfold dispatch_click, _handleClick. unfold_m. simpl.
    destruct (doc_click s =? 0); simpl; [done|].
    destruct (_handleClick_loop dom target (_handlers s) FNull) as [a|e]; simpl; [|done].
    destruct (_activate_spec a s) as (s' & -> & _ & Hh & Hcb & _). simpl.
    unfold tracked_implies_bound. by rewrite Hh, Hcb.
  - simpl. by rewrite dispatch_keydown_state.
  - simpl. unfold dispatch_focus. unfold_m. simpl.
    destruct (run_onfocus_spec tracked_implies_bound (default [] (onfocus s !! el)) s)
      as (s' & -> & Hs' & _); [|done..].
    intros a s0 H0. destruct (_activate_spec a s0) as (s1 & -> & _ & Hh & Hcb & _).
    simpl. unfold tracked_implies_bound. by rewrite Hh, Hcb.
  - simpl. unfold fire_timer. unfold_m. simpl.
    destruct (timers s) as [|i rest]; simpl; [done|].
    match goal with |- context [_activate ?a ?s0] =>
      destruct (_activate_spec a s0) as (s1 & -> & _ & Hh & Hcb & _)
    end.
    simpl in *. unfold tracked_implies_bound. by rewrite Hh, Hcb.
Qed.

Lemma run_tracked_implies_bound ops s :
  tracked_implies_bound s → tracked_implies_bound (run ops s).1.
Proof.
  revert s. induction ops as [|op ops IH]; intros s Hs; simpl; [done|].
  pose proof (step_tracked_implies_bound op s Hs) as H1.
  destruct (step op s) as [[r s1] t1]. simpl in H1.
  specialize (IH s1 H1). by destruct (run ops s1).
Qed.

Lemma init_tracked_implies_bound : tracked_implies_bound init.
Proof. intros H. discriminate H. Qed.

(** *** The keydown registration follows the focus *)

Lemma _activate_keys_follow_focus a s :
  keys_follow_focus (_activate a s).1.2.
Proof.
  destruct (_activate_spec a s) as (s' & -> & Hf & _ & _ & _ & _ & _ & _ & Hkb & _).
  unfold keys_follow_focus. simpl. by rewrite Hkb, Hf.
Qed.

Lemma step_keys_follow_focus op s :
  keys_follow_focus s → keys_follow_focus (step op s).1.2.
Proof.
  intros Hs. destruct op as [keys g target|dom i|i|dom target|event|el|].
  - exec; done.
  - exec; done.
  - simpl. destruct (getBinding (prototype i) s) as [h|] eqn:Hg.
    + unfold onUnmount, _deleteInstance, _unbindClicks, update_handler.
      unfold_m. rewrite Hg. simpl.
      destruct (_clicksBound s && _) eqn:Hc; simpl;
        destruct (_focusedInstance s) as [| |j] eqn:Hfoc; simpl;
        try (unfold keys_follow_focus in *; simpl; by rewrite Hs, Hfoc);
        case_bool_decide;
        try (unfold keys_follow_focus in *; simpl; by rewrite Hs, Hfoc);
        match goal with |- context [_activate FNull ?s0] =>
          pose proof (_activate_keys_follow_focus FNull s0) as Hk;
          by destruct (_activate FNull s0) as [[r1 s1] t1]
        end.
    + by rewrite (onUnmount_throws i s Hg).
  - simpl. unfold dispatch_click, _handleClick. unfold_m. simpl.
    destruct (doc_click s =? 0); simpl; [done|].
    destruct (_handleClick_loop dom target (_handlers s) FNull) as [a|e]; simpl; [|done].
    pose proof (_activate_keys_follow_focus a s) as Hk.
    by destruct (_activate a s) as [[r1 s1] t1].
  - simpl. by rewrite dispatch_keydown_state.
  - simpl. unfold dispatch_focus. unfold_m. simpl.
    destruct (run_onfocus_spec keys_follow_focus (default [] (onfocus s !! el)) s)
      as (s' & -> & Hs' & _); [|done..].
    intros a s0 _. apply _activate_keys_follow_focus.
  - simpl. unfold fire_timer. unfold_m. simpl.
    destruct (timers s) as [|i rest]; simpl; [done|].
    match goal with |- context [_activate ?a ?s0] =>
      pose proof (_activate_keys_follow_focus a s0) as Hk;
      by destruct (_activate a s0) as [[r1 s1] t1]
    end.
Qed.

Lemma run_keys_follow_focus ops s :
  keys_follow_focus s → keys_follow_focus (run ops s).1.
Proof.
  revert s. induction ops as [|op ops IH]; intros s Hs; simpl; [done|].
  pose proof (step_keys_follow_focus op s Hs) as H1.
  destruct (step op s) as [[r s1] t1]. simpl in H1.
  specialize (IH s1 H1). by destruct (run ops s1).
Qed.

(** While no instance is focused the keydown handler is not registered:
    a keydown is then dropped by the document and the handler, which
    would dereference [null], is never entered. *)
Lemma keydown_without_focus_is_dropped ops (event : Event EventData) :
  let s := (run ops init).1 in
  is_inst (_focusedInstance s) = false →
  dispatch_keydown event s = (Ok tt, s, []).
Proof.
  intros s Hfoc.
  assert (consistent s) as [_ Hk] by apply run_consistent, init_consistent.
  assert (keys_follow_focus s) as Hkf by (by apply run_keys_follow_focus).
  unfold keys_follow_focus in Hkf. rewrite Hfoc in Hkf. rewrite Hkf in Hk.
  unfold dispatch_keydown. unfold_m. by rewrite Hk.
Qed.

(** *** Traces *)

Lemma guarded_app_silent t1 t2 : silent t1 = true → guarded (t1 ++ t2) = guarded t2.
Proof.
  induction t1 as [|[g this e|a] t1 IH]; simpl; [done..|].
  intros [Ha Ht]%andb_prop. destruct a; [by apply IH..|done].
Qed.

Lemma guarded_app_loud t1 t2 :
  guarded t1 = true → silent t1 = false → guarded (t1 ++ t2) = true.
Proof.
  induction t1 as [|[g this e|a] t1 IH]; simpl; [done..|].
  destruct a; simpl; auto.
Qed.

Lemma guarded_spec t :
  guarded t = true →
  ∀ t1 f this e t2, t = t1 ++ Call f this e :: t2 → ∃ i, Activate (FInst i) ∈ t1.
Proof.
  induction t as [|[g th ev|a] t IH]; simpl; intros Hg t1 f this e t2 Ht.
  - by destruct t1.
  - done.
  - destruct t1 as [|x t1]; simplify_eq/=.
    destruct a as [| |i].
    + destruct (IH Hg _ _ _ _ _ eq_refl) as [i Hi]. exists i. by right.
    + destruct (IH Hg _ _ _ _ _ eq_refl) as [i Hi]. exists i. by right.
    + exists i. left.
Qed.

Lemma step_guarded op s :
  is_inst (_focusedInstance s) = false →
  guarded (step op s).2 = true
  ∧ (silent (step op s).2 = true → is_inst (_focusedInstance (step op s).1.2) = false).
Proof.
  intros Hfoc.
  assert (∀ j, _focusedInstance s ≠ FInst j) as Hno.
  { intros j Hj. by rewrite Hj in Hfoc. }
  destruct op as [keys g target|dom i|i|dom target|event|el|].
  - exec; done.
  - exec; done.
  - exec; try done; by edestruct Hno.
  - exec; done.
  - simpl. rewrite dispatch_keydown_state.
    unfold dispatch_keydown, _handleKeyDown. unfold_m.
    destruct (doc_keydown s =? 0), (_shouldConsider event); simpl; try done.
    destruct (_focusedInstance s) eqn:E; simpl; done.
  - simpl. unfold dispatch_focus. unfold_m. simpl.
    destruct (run_onfocus_spec (fun _ => True) (default [] (onfocus s !! el)) s)
      as (s' & -> & _ & Hnil & Hne); [done..|].
    simpl. destruct (default [] (onfocus s !! el)) as [|j chain]; simpl.
    + by rewrite Hnil.
    + done.
  - exec; done.
Qed.

Lemma run_guarded ops s :
  is_inst (_focusedInstance s) = false → guarded (run ops s).2 = true.
Proof.
  revert s. induction ops as [|op ops IH]; intros s Hfoc; simpl; [done|].
  destruct (step_guarded op s Hfoc) as [Hg Hs].
  destruct (step op s) as [[r s1] t1]. simpl in *.
  specialize (IH s1). destruct (run ops s1) as [s2 t2]. simpl in *.
  destruct (silent t1) eqn:Hsil.
  - rewrite guarded_app_silent; auto.
  - by apply guarded_app_loud.
Qed.

(** Callbacks are invoked on the instance activated last. *)
Lemma focus_after_app a t1 t2 :
  focus_after a (t1 ++ t2) = focus_after (focus_after a t1) t2.
Proof.
  revert a. induction t1 as [|[g this e|b] t1 IH]; intros a; simpl; auto.
Qed.

Lemma calls_follow_app a t1 t2 :
  calls_follow a (t1 ++ t2) ↔ calls_follow a t1 ∧ calls_follow (focus_after a t1) t2.
Proof.
  revert a. induction t1 as [|[g this e|b] t1 IH]; intros a; simpl.
  - tauto.
  - rewrite IH. tauto.
  - apply IH.
Qed.

Lemma calls_follow_same i t :
  (∀ e, e ∈ t → ∃ g event, e = Call g i event) →
  calls_follow (FInst i) t ∧ focus_after (FInst i) t = FInst i.
Proof.
  induction t as [|e t IH]; intros Hall; simpl; [done|].
  destruct (Hall e) as (g & event & ->); [left|].
  destruct IH as [H1 H2]; [intros e' He'; apply Hall; by right|]. done.
Qed.

Lemma focus_after_last a t :
  (focus_after a t = a ∧ ∀ b, Activate b ∉ t)
  ∨ ∃ t0 t', t = t0 ++ Activate (focus_after a t) :: t' ∧ ∀ b, Activate b ∉ t'.
Proof.
  revert a. induction t as [|[g this e|b] t IH]; intros a; simpl.
  - left. split; [done|]. intros b Hb. by apply elem_of_nil in Hb.
  - destruct (IH a) as [[E Hno]|(t0 & t' & E & Hno)].
    + left. split; [done|]. intros b [?|Hb]%elem_of_cons; [done|by eapply Hno].
    + right. exists (Call g this e :: t0), t'. split; [|done]. simpl. by rewrite <- E.
  - right. destruct (IH b) as [[E Hno]|(t0 & t' & E & Hno)].
    + exists [], t. rewrite E. done.
    + exists (Activate b :: t0), t'. split; [|done]. simpl. by rewrite <- E.
Qed.

Lemma run_onfocus_calls_follow chain s :
  ∃ s' t, run_onfocus chain s = (Ok tt, s', t)
    ∧ calls_follow (_focusedInstance s) t
    ∧ _focusedInstance s' = focus_after (_focusedInstance s) t.
Proof.
  revert s. induction chain as [|i chain IH]; intros s; simpl.
  - by exists s, [].
  - unfold_m. destruct (_activate_spec (FInst i) s) as (s1 & E1 & Hf1 & _). rewrite E1.
    destruct (IH s1) as (s2 & t & E2 & Hc & Hf). rewrite E2.
    exists s2, (Activate (FInst i) :: t). simpl. by rewrite Hf1 in Hc, Hf.
Qed.

Lemma step_calls_follow op s :
  calls_follow (_focusedInstance s) (step op s).2
  ∧ _focusedInstance (step op s).1.2 = focus_after (_focusedInstance s) (step op s).2.
Proof.
  destruct op as [keys g target|dom i|i|dom target|event|el|].
  - exec; done.
  - exec; done.
  - exec; done.
  - exec; done.
  - simpl. rewrite dispatch_keydown_state.
    unfold dispatch_keydown, _handleKeyDown. unfold_m.
    destruct (doc_keydown s =? 0), (_shouldConsider event); simpl; try done.
    destruct (_focusedInstance s) as [| |i] eqn:E; simpl; try done.
    destruct (getBinding (prototype i) s) as [h|]; simpl; [|done].
    destruct (forEach_binding_spec i event (bindings h) s) as (t & -> & Hall). simpl.
    destruct (calls_follow_same i t) as [H1 H2]; [|done].
    intros e He. destruct (Hall e He) as (ks & g & -> & _). eauto.
  - simpl. unfold dispatch_focus. unfold_m. simpl.
    by destruct (run_onfocus_calls_follow (default [] (onfocus s !! el)) s)
      as (s' & t & -> & Hc & Hf).
  - exec; done.
Qed.

Lemma run_calls_follow ops s :
  calls_follow (_focusedInstance s) (run ops s).2
  ∧ _focusedInstance (run ops s).1 = focus_after (_focusedInstance s) (run ops s).2.
Proof.
  revert s. induction ops as [|op ops IH]; intros s; simpl; [done|].
  destruct (step_calls_follow op s) as [Hc Hf].
  destruct (step op s) as [[r s1] t1]. simpl in *.
  specialize (IH s1). destruct (run ops s1) as [s2 t2]. simpl in *.
  destruct IH as [Hc2 Hf2]. rewrite calls_follow_app, focus_after_app, <- Hf. done.
Qed.

(** No class has an instance, as [_unbindClicks] tests it. *)
Lemma some_instances_false (hs : list (nat * Handler)) :
  some_instances hs = false ↔ ∀ target h, (target, h) ∈ hs → instances h = [].
Proof.
  induction hs as [|[k h0] hs IH]; simpl.
  - split; [|done]. intros _ target h Hin. by apply elem_of_nil in Hin.
  - rewrite orb_false_iff, IH. split.
    + intros [Hh Hrest] target h [?|Hin]%elem_of_cons; [|by eapply Hrest].
      simplify_eq. by destruct (instances _).
    + intros Hall. split.
      * rewrite (Hall k h0); [done|left].
      * intros target h Hin. apply (Hall target h). by right.
Qed.

(** *** Registering bindings *)

(** In a state whose arrays are all older than the next one, a
    registration is appended to the bindings of its class and leaves the
    earlier ones as they are. *)
Lemma setBinding_appends keys g target s :
  refs_fresh s →
  let h0 := default {| bindings := []; instances := [] |} (getBinding target s) in
  let keySets := {| arr_ref := next_ref s; elems := parsed keys |} in
  ∃ s', setBinding keys g target s = (Ok tt, s', [])
    ∧ getBinding target s'
      = Some {| bindings := bindings h0 ++ [(keySets, g)]; instances := instances h0 |}.
Proof.
  intros Hs h0 keySets. rewrite setBinding_spec. eexists. split; [reflexivity|].
  unfold getBinding at 1. simpl. rewrite map_get_set_eq. fold h0 keySets.
  rewrite bindings_set_fresh; [done|].
  intros ks f Hin. simpl. subst h0.
  destruct (getBinding target s) as [h|] eqn:Hg; simpl in Hin.
  - apply map_get_elem in Hg. specialize (Hs _ _ _ _ Hg Hin). lia.
  - by apply elem_of_nil in Hin.
Qed.

End ListenersFacts.

(** * The claims of the specification *)

Section Claims.
Context `{L : KeyLib}.

(** What a keydown dispatch invokes, in both modules. In the listeners
    module every callback invoked by the keydown handler is
    called on the focused instance, with a callback bound for that
    instance's class whose key-sets match the event. In the store,
    [findBindingForEvent] returns at most one callback, with the entry
    of the activation stack that owns it: the entry nearest to the top
    (the end of the array, where [activate] pushes) whose bindings match
    the event, every entry above it having bindings that do not match.
    The stack is ordered by activation: after any sequence of [activate]
    calls its entries are entries of the sequence of activated values,
    in the same order. *)
Theorem dispatch_invokes_only_the_focused_instance :
  (∀ (event : Event EventData) (s : Listeners.State) (e : Listeners.Effect),
      e ∈ (Listeners.dispatch_keydown event s).2 →
      ∃ instance h keySets fn,
        Listeners._focusedInstance s = Listeners.FInst instance
        ∧ e = Listeners.Call fn instance event
        ∧ Listeners.getBinding (Listeners.prototype instance) s = Some h
        ∧ (keySets, fn) ∈ Listeners.bindings h
        ∧ existsb (fun keySet => matchKeys keySet event) (Listeners.elems keySets) = true)
  ∧ (∀ (event : Event EventData) (s : Store.State) (fn : Fn) (instance : Store.Value),
      Store.findBindingForEvent event s = Ok (Some (fn, instance)) →
      ∃ i bs,
        i < length (Store._instances2 s)
        ∧ Store.index (Store._instances2 s) i = instance
        ∧ Store.getBinding instance s = Ok (Store.BPairs bs)
        ∧ Store.for_of event bs = Some fn
        ∧ ∀ j, i < j < length (Store._instances2 s) →
            ∃ bs', Store.getBinding (Store.index (Store._instances2 s) j) s
                     = Ok (Store.BPairs bs')
                   ∧ Store.for_of event bs' = None)
  ∧ (∀ calls : list Store.Arg,
      Store._instances2
        (fold_left (fun s instances => Store.activate instances s) calls Store.init)
      `sublist_of` mjoin (map Store.concat calls)).
Proof.
  split; [|split].
  - intros event s e. unfold Listeners.dispatch_keydown, Listeners._handleKeyDown.
    unfold Listeners.bind, Listeners.get, Listeners.ret, Listeners.throw. simpl.
    destruct (Listeners.doc_keydown s =? 0), (Listeners._shouldConsider event);
      simpl; try by intros ?%elem_of_nil.
    destruct (Listeners._focusedInstance s) as [| |instance]; simpl;
      try by intros ?%elem_of_nil.
    destruct (Listeners.getBinding _ s) as [h|] eqn:Hg; simpl;
      try by intros ?%elem_of_nil.
    destruct (forEach_binding_spec instance event (Listeners.bindings h) s)
      as (t & -> & Hall). simpl.
    intros He. destruct (Hall e He) as (ks & fn & -> & Hin & Hm).
    by exists instance, h, ks, fn.
  - intros event s fn instance. apply findBindingForEvent_loop_Some.
  - intros calls. by apply (activations_sublist calls Store.init []).
Qed.


(** C6 (amended). In every state in which an instance of a class with
    registered bindings is the focused instance, [onUnmount] of that
    instance returns and leaves [null] as the focused pointer and the
    keydown flag cleared; where the registrations on the document agree
    with the flags, as in every state reached from the initial one, no
    keydown listener is left on the document; and whatever calls follow,
    no callback is invoked before [_activate] is called with an
    instance, and a callback that is invoked is invoked on the instance
    given to the last call of [_activate] before it. That instance can
    be the unmounted one: [onUnmount] cancels neither the timer of
    [onMount] nor the [onfocus] wrappers. *)
Theorem unmount_of_focused_clears_focus :
  ∀ (s : Listeners.State) (instance : Listeners.Instance),
    Listeners._focusedInstance s = Listeners.FInst instance →
    Listeners.getBinding (Listeners.prototype instance) s ≠ None →
    ∃ s',
      Listeners.onUnmount instance s = (Ok tt, s', [Listeners.Activate Listeners.FNull])
      ∧ Listeners._focusedInstance s' = Listeners.FNull
      ∧ Listeners._keysBound s' = false
      ∧ (Listeners.consistent s → Listeners.doc_keydown s' = 0)
      ∧ (∀ ops0, s = (Listeners.run ops0 Listeners.init).1 → Listeners.doc_keydown s' = 0)
      ∧ ∀ ops t1 fn this event t2,
          (Listeners.run ops s').2 = t1 ++ Listeners.Call fn this event :: t2 →
          ∃ t0 t1',
            t1 = t0 ++ Listeners.Activate (Listeners.FInst this) :: t1'
            ∧ ∀ a, Listeners.Activate a ∉ t1'.
Proof.
  intros s instance Hfoc Hg.
  destruct (Listeners.getBinding (Listeners.prototype instance) s) as [h|] eqn:Hh; [|done].
  destruct (onUnmount_returns instance s h Hh) as (s' & t & E & _ & _ & Hrest & _).
  destruct (Hrest Hfoc) as (-> & Hf & Hkb & Hdk).
  assert (Listeners.consistent s → Listeners.doc_keydown s' = 0) as Hoff.
  { intros [_ Hk]. rewrite Hdk, Hk. by destruct (Listeners._keysBound s). }
  exists s'. repeat split; [done..| |].
  - intros ops0 ->. apply Hoff, run_consistent, init_consistent.
  - intros ops t1 fn this event t2 Ht.
    destruct (run_calls_follow ops s') as [Hcf _]. rewrite Hf, Ht in Hcf.
    apply calls_follow_app in Hcf as [_ [Hlast _]].
    destruct (focus_after_last Listeners.FNull t1) as [[E1 _]|(t0 & t1' & E1 & Hno)].
    + congruence.
    + rewrite Hlast in E1. eauto.
Qed.

(** C7. A keydown whose target is an INPUT, SELECT or TEXTAREA element
    invokes no callback: the handler returns at once, leaving state and
    trace untouched, whatever is focused or bound. *)
Theorem text_entry_target_invokes_nothing :
  ∀ (event : Event EventData) (s : Listeners.State),
    In (target_tagName event) [Some "INPUT"; Some "SELECT"; Some "TEXTAREA"] →
    Listeners._shouldConsider event = false
    ∧ Listeners._handleKeyDown event s = (Ok tt, s, [])
    ∧ Listeners.dispatch_keydown event s = (Ok tt, s, []).
Proof.
  intros event s Htag.
  assert (Listeners._shouldConsider event = false) as Hno.
  { unfold Listeners._shouldConsider.
    destruct Htag as [<-|[<-|[<-|[]]]]; reflexivity. }
  repeat split; [done| |].
  - unfold Listeners._handleKeyDown. by rewrite Hno.
  - unfold Listeners.dispatch_keydown, Listeners._handleKeyDown.
    unfold Listeners.bind, Listeners.get, Listeners.ret. simpl.
    rewrite Hno. by destruct (Listeners.doc_keydown s =? 0).
Qed.

(** C8 (amended). In every state reached from the initial one the click
    handler and the keydown handler are each registered on the document
    at most once; a call removes the click handler exactly when it is an
    [onUnmount] of an instance of a class with registered bindings,
    made while the handler is registered, after which the instance set
    of every class is empty; and after an [onUnmount] of an instance of
    such a class, the click handler is off the document exactly when the
    instance set of every class is empty. *)
Theorem document_listeners_attached_once :
  ∀ ops op,
    let s := (Listeners.run ops Listeners.init).1 in
    let s' := (Listeners.step op s).1.2 in
    Listeners.doc_click s ≤ 1
    ∧ Listeners.doc_keydown s ≤ 1
    ∧ (Listeners.doc_click s' < Listeners.doc_click s ↔
         ∃ instance,
           op = Listeners.OUnmount instance
           ∧ Listeners.doc_click s = 1
           ∧ Listeners.getBinding (Listeners.prototype instance) s ≠ None
           ∧ Listeners.no_instance_left s')
    ∧ (∀ instance,
         op = Listeners.OUnmount instance →
         Listeners.getBinding (Listeners.prototype instance) s ≠ None →
         (Listeners.doc_click s' = 0 ↔ Listeners.no_instance_left s')).
Proof.
  intros ops op s s'.
  assert (Listeners.consistent s) as Hs by apply run_consistent, init_consistent.
  pose proof Hs as [Hc Hk].
  split; [rewrite Hc; destruct (Listeners._clicksBound s); lia|].
  split; [rewrite Hk; destruct (Listeners._keysBound s); lia|].
  assert (∀ s0, Listeners.no_instance_left s0
                ↔ Listeners.some_instances (Listeners._handlers s0) = false) as Hempty.
  { intros s0. symmetry. apply some_instances_false. }
  split; [|intros i -> Hok; rewrite Hempty].
  2: {
    assert (Listeners.tracked_implies_bound s) as Ht
      by apply run_tracked_implies_bound, init_tracked_implies_bound.
    pose proof (step_consistent (Listeners.OUnmount i) s Hs) as [Hc' _].
    pose proof (step_tracked_implies_bound (Listeners.OUnmount i) s Ht) as Ht'.
    fold s' in Hc', Ht'. unfold Listeners.tracked_implies_bound in Ht'.
    rewrite Hc'.
    destruct (Listeners._clicksBound s') eqn:Hb,
      (Listeners.some_instances (Listeners._handlers s')) eqn:Hsome; try done.
    - exfalso. subst s'. simpl in *.
      destruct (Listeners.getBinding (Listeners.prototype i) s) as [h|] eqn:Hg.
      + destruct (onUnmount_returns i s h Hg) as (s1 & t & E & _ & _ & _ & Hcb).
        rewrite E in *. simpl in *. rewrite Hcb, Hsome, andb_false_r in Hb. done.
      + done.
    - by specialize (Ht' eq_refl). }
  assert ((∃ i, op = Listeners.OUnmount i) ∨ ∀ i, op ≠ Listeners.OUnmount i)
    as [[i ->]|Hop] by (destruct op; eauto).
  - subst s'. simpl.
    destruct (Listeners.getBinding (Listeners.prototype i) s) as [h|] eqn:Hg.
    + destruct (onUnmount_returns i s h Hg) as (s1 & t & E & Hh & Hdc & _).
      rewrite E. simpl. rewrite Hdc, Hc.
      destruct (Listeners._clicksBound s),
        (Listeners.some_instances (Listeners._handlers s1)) eqn:Hsome;
        simpl; split; try lia; try (intros (j & _ & ? & _); congruence);
        try (intros (j & _ & _ & _ & ?%Hempty); congruence).
      intros _. exists i. rewrite Hg. repeat split; [done|]. by apply Hempty.
    + rewrite (onUnmount_throws i s Hg). simpl. split; [lia|].
      intros (j & ? & _ & Hb & _). simplify_eq.
  - split.
    + intros Hlt. pose proof (step_click_mono op s Hop) as Hmono. subst s'. lia.
    + intros (i & -> & _). by destruct (Hop i).
Qed.

(** C9. Activating an instance makes it the one that receives keydown
    events, whether or not it is tracked: [_activate] stores it in the
    focused pointer; [activate] of the store leaves it at the end of
    [_instances2], and [findBindingForEvent] consults its bindings
    before those of any other entry. *)
Theorem activate_makes_instance_focused :
  (∀ (instance : Listeners.Instance) (s : Listeners.State),
      ∃ s',
        Listeners._activate (Listeners.FInst instance) s
        = (Ok tt, s', [Listeners.Activate (Listeners.FInst instance)])
        ∧ Listeners._focusedInstance s' = Listeners.FInst instance)
  ∧ (∀ (v : Store.Value) (s : Store.State),
      last (Store._instances2 (Store.activate (Store.One v) s)) = Some v)
  ∧ (∀ (event : Event EventData) (v : Store.Value) (s : Store.State),
      let s' := Store.activate (Store.One v) s in
      Store.findBindingForEvent event s' =
        match Store.getBinding v s' with
        | Throw e => Throw e
        | Ok Store.BNull | Ok Store.BUndef => Throw TypeError
        | Ok (Store.BPairs bs) =>
            match Store.for_of event bs with
            | Some fn => Ok (Some (fn, v))
            | None =>
                Store.findBindingForEvent_loop event s'
                  (pred (length (Store._instances2 s')))
            end
        end).
Proof.
  repeat split.
  - intros instance s.
    destruct (_activate_spec (Listeners.FInst instance) s) as (s' & E & Hf & _).
    by exists s'.
  - intros v s. rewrite activate_One.
    destruct (activate_one_snoc (Store._instances2 s) v) as [k ->]. apply last_snoc.
  - intros event v s s'. unfold Store.findBindingForEvent.
    assert (∃ pre, Store._instances2 s' = pre ++ [v]) as [pre Hpre].
    { subst s'. rewrite activate_One.
      destruct (activate_one_snoc (Store._instances2 s) v) as [k ->]. eauto. }
    clearbody s'. rewrite Hpre, length_app, Nat.add_1_r. simpl.
    by rewrite Hpre, index_snoc.
Qed.

(** C10. [isEmpty] of the store returns [true] in every state, also
    when instances are stored: it negates the [size] property of an
    array, which is [undefined]. *)
Theorem isEmpty_always_true :
  ∀ s : Store.State, Store.isEmpty s = true.
Proof. intros s. reflexivity. Qed.

(** C4. Absence is not tolerated silently by the store:
    [deleteInstance] throws a [ReferenceError] for every target and
    state, because it evaluates the undeclared [_instances], and
    [findBindingForEvent] throws a [TypeError] when the entry on top of
    the stack is [null] or an object without bindings. *)
Theorem store_absence_throws :
  (∀ (target : Store.Value) (s : Store.State),
      Store.deleteInstance target s = (Throw (ReferenceError "_instances"), s))
  ∧ (∀ (event : Event EventData) hs arr h n,
      Store.findBindingForEvent event
        {| Store._handlers2 := hs; Store._instances2 := arr ++ [Store.VNull];
           Store.heap := h; Store.uuid_calls := n |}
      = Throw TypeError)
  ∧ (∀ (event : Event EventData) hs arr n (o : Store.Obj),
      Store.findBindingForEvent event
        {| Store._handlers2 := hs; Store._instances2 := arr ++ [Store.VObj o];
           Store.heap := ∅; Store.uuid_calls := n |}
      = Throw TypeError).
Proof.
  repeat split.
  - intros event hs arr h n. unfold Store.findBindingForEvent. simpl.
    rewrite length_app, Nat.add_1_r. simpl. by rewrite index_snoc.
  - intros event hs arr n o. unfold Store.findBindingForEvent. simpl.
    rewrite length_app, Nat.add_1_r. simpl. rewrite index_snoc.
    unfold Store.getBinding, Store.get_uuid. simpl. rewrite lookup_empty.
    assert (Store.lookup_chain ∅ (Store.chain o) = None) as ->; [|done].
    induction (Store.chain o) as [|i c IH]; simpl; [done|by rewrite lookup_empty].
Qed.

End Claims.

(** * The claims on concrete inputs *)

(** C3. Two registrations for one class in the store: both records are
    kept in [_handlers2], yet [getBinding] returns the later pair alone;
    the pair registered first is not retrieved. *)
Theorem store_getBinding_returns_last_registration_only :
  let s := Store.setBinding (L := demo_lib) (Some "b") 2 demo_class
             (Store.setBinding (L := demo_lib) (Some "a") 1 demo_class Store.init) in
  Store._handlers2 s
  = [ {| Store.targetUuid := Some 1%N; Store.keySets := Store.Sets (L := demo_lib) ["a"]; Store.fn := 1 |};
      {| Store.targetUuid := Some 1%N; Store.keySets := Store.Sets (L := demo_lib) ["b"]; Store.fn := 2 |} ]
  ∧ Store.getBinding (Store.VObj demo_class) s = Ok (Store.BPairs [(Store.Sets (L := demo_lib) ["b"], 2)]).
Proof. split; reflexivity. Qed.

(** C5. Activating an instance that is in the stack below another one:
    the scan pops the entry on top instead of the one it found, so the
    other instance is lost and the activated one is there twice. *)
Theorem store_activate_pops_the_top_entry :
  Store._instances2 (Store.activate (Store.One demo_a) (demo_stack [demo_a; demo_b]))
  = [demo_a; demo_a].
Proof. reflexivity. Qed.

(** C1. The store does not dispatch to the most recently activated
    instance that has a matching binding. Key "a" is bound for the
    classes of p and q and key "b" for the class of x, and p, x, q, z,
    p, x are activated in turn: the scan of [activate] pops the entry on
    top instead of the one it finds, so the stack is p, x, q, x and not
    q, z, p, x. For a keydown of "a", [findBindingForEvent] returns the
    callback of q with q, although p is in the stack, has a matching
    binding and was activated after q. *)
Theorem store_dispatch_skips_later_activated_instance :
  let event := demo_event "DIV" "a" in
  let activations := [demo_a; demo_x; demo_q; demo_d; demo_a; demo_x] in
  let s := fold_left (fun s v => Store.activate (Store.One v) s) activations demo_bindings in
  Store._instances2 s = [demo_a; demo_x; demo_q; demo_x]
  ∧ Store.findBindingForEvent event s = Ok (Some (9, demo_q))
  ∧ Store.getBinding demo_a s = Ok (Store.BPairs [(Store.Sets (L := demo_lib) ["a"], 7)])
  ∧ Store.has_matching_binding event s demo_a = true
  ∧ Store.most_recently_activated event activations s = Some demo_a.
Proof. repeat split; reflexivity. Qed.

(** The same defect drops entries that were not activated again: after
    activating a, b, c, d, b, a in turn, d is gone and so is the later
    entry of b, whose earlier entry is left below c. *)
Example store_activation_drops_entries :
  Store._instances2
    (Store.activate (Store.One demo_a)
      (Store.activate (Store.One demo_b)
        (Store.activate (Store.Many [demo_a; demo_b; demo_c; demo_d]) (demo_stack []))))
  = [demo_a; demo_b; demo_c; demo_a].
Proof. reflexivity. Qed.

(** C6, as stated, fails in two ways. For an instance whose class was
    never given a binding: [onMount] throws after wiring its focusable
    element, a focus event on that element makes the instance the
    focused one, and [onUnmount] then throws before it reaches the
    focused pointer, which still holds the instance. And for an instance
    of a bound class that is mounted, focused by a click and unmounted
    before the timer of [onMount] has run: the focused pointer is
    [null] after [onUnmount], but the timer then activates the unmounted
    instance, and a keydown invokes its callback although no other
    instance was activated. *)
Lemma unmount_of_focused_instance_is_not_final :
  (let s := (Listeners.run (L := demo_lib)
               [Listeners.OMount demo_dom demo_instance; Listeners.OFocus 51]
               Listeners.init).1 in
   Listeners._focusedInstance s = Listeners.FInst demo_instance
   ∧ Listeners.onUnmount demo_instance s = (Throw TypeError, s, [])
   ∧ Listeners._focusedInstance (Listeners.onUnmount demo_instance s).1.2 ≠ Listeners.FNull)
  ∧ (let event := demo_event "DIV" "a" in
     let s := (Listeners.run (L := demo_lib)
                 [Listeners.OSetBinding (L := demo_lib) (Some "a") 7 100;
                  Listeners.OMount demo_dom demo_instance;
                  Listeners.OClick demo_dom 1]
                 Listeners.init).1 in
     let s' := (Listeners.onUnmount demo_instance s).1.2 in
     Listeners._focusedInstance s = Listeners.FInst demo_instance
     ∧ Listeners._focusedInstance s' = Listeners.FNull
     ∧ (Listeners.run [Listeners.OTimer; Listeners.OKeyDown event] s').2
       = [Listeners.Activate (Listeners.FInst demo_instance);
          Listeners.Call (L := demo_lib) 7 demo_instance event]).
Proof.
  split.
  - split; [reflexivity|]. split; [reflexivity|discriminate].
  - split; [reflexivity|]. split; reflexivity.
Qed.

(** The dispatch on an example: key "a" is bound and the instance is
    focused (in the store: activated), and a keydown of "a" is
    dispatched. *)
Lemma dispatch_invokes_only_the_focused_instance_witness :
  let s := (Listeners.run (L := demo_lib) demo_ops Listeners.init).1 in
  let event := demo_event "DIV" "a" in
  let st := Store.activate (Store.One demo_a)
              (Store.setBinding (L := demo_lib) (Some "a") 7 demo_class Store.init) in
  (Listeners.Call (L := demo_lib) 7 demo_instance event ∈ (Listeners.dispatch_keydown (L := demo_lib) event s).2
   ∧ ∃ instance h keySets fn,
       Listeners._focusedInstance s = Listeners.FInst instance
       ∧ Listeners.Call (L := demo_lib) 7 demo_instance event = Listeners.Call fn instance event
       ∧ Listeners.getBinding (Listeners.prototype instance) s = Some h
       ∧ (keySets, fn) ∈ Listeners.bindings h
       ∧ existsb (fun keySet => matchKeys keySet event) (Listeners.elems keySets) = true)
  ∧ (Store.findBindingForEvent event st = Ok (Some (7, demo_a))
     ∧ ∃ i bs,
         i < length (Store._instances2 st)
         ∧ Store.index (Store._instances2 st) i = demo_a
         ∧ Store.getBinding demo_a st = Ok (Store.BPairs bs)
         ∧ Store.for_of event bs = Some 7
         ∧ ∀ j, i < j < length (Store._instances2 st) →
             ∃ bs', Store.getBinding (Store.index (Store._instances2 st) j) st
                      = Ok (Store.BPairs bs')
                    ∧ Store.for_of event bs' = None).
Proof.
  intros s event st.
  assert (Listeners.Call (L := demo_lib) 7 demo_instance event ∈ (Listeners.dispatch_keydown (L := demo_lib) event s).2) as H1.
  { vm_compute. left. }
  assert (Store.findBindingForEvent event st = Ok (Some (7, demo_a))) as H2.
  { reflexivity. }
  split; split; [exact H1| |exact H2|].
  - exact (proj1 (dispatch_invokes_only_the_focused_instance (L := demo_lib)) event s _ H1).
  - exact (proj1 (proj2 (dispatch_invokes_only_the_focused_instance (L := demo_lib)))
             event st _ _ H2).
Defined.


(** C6 on an example: the mounted and activated instance is unmounted. *)
Lemma unmount_of_focused_clears_focus_witness :
  let s := (Listeners.run (L := demo_lib) demo_ops Listeners.init).1 in
  Listeners._focusedInstance s = Listeners.FInst demo_instance
  ∧ Listeners.getBinding (Listeners.prototype demo_instance) s ≠ None
  ∧ ∃ s',
      Listeners.onUnmount demo_instance s = (Ok tt, s', [Listeners.Activate Listeners.FNull])
      ∧ Listeners._focusedInstance s' = Listeners.FNull
      ∧ Listeners._keysBound s' = false
      ∧ (Listeners.consistent s → Listeners.doc_keydown s' = 0)
      ∧ (∀ ops0, s = (Listeners.run ops0 Listeners.init).1 → Listeners.doc_keydown s' = 0)
      ∧ ∀ ops t1 fn this event t2,
          (Listeners.run ops s').2 = t1 ++ Listeners.Call fn this event :: t2 →
          ∃ t0 t1',
            t1 = t0 ++ Listeners.Activate (Listeners.FInst this) :: t1'
            ∧ ∀ a, Listeners.Activate a ∉ t1'.
Proof.
  intros s.
  assert (Listeners._focusedInstance s = Listeners.FInst demo_instance) as H1 by reflexivity.
  assert (Listeners.getBinding (Listeners.prototype demo_instance) s ≠ None) as H2
    by (vm_compute; discriminate).
  split; [exact H1|]. split; [exact H2|].
  exact (unmount_of_focused_clears_focus (L := demo_lib) s demo_instance H1 H2).
Defined.

(** C7 on an example: a keydown of the bound key "a" inside an INPUT. *)
Lemma text_entry_target_invokes_nothing_witness :
  let event := demo_event "INPUT" "a" in
  let s := (Listeners.run (L := demo_lib) demo_ops Listeners.init).1 in
  In (target_tagName event) [Some "INPUT"; Some "SELECT"; Some "TEXTAREA"]
  ∧ Listeners._shouldConsider event = false
  ∧ Listeners._handleKeyDown event s = (Ok tt, s, [])
  ∧ Listeners.dispatch_keydown event s = (Ok tt, s, []).
Proof.
  intros event s.
  assert (In (target_tagName event) [Some "INPUT"; Some "SELECT"; Some "TEXTAREA"]) as H
    by (simpl; auto).
  split; [exact H|].
  exact (text_entry_target_invokes_nothing (L := demo_lib) event s H).
Defined.

(** C8, as stated for every sequence of mounts and unmounts, fails when
    an instance of a class without bindings is mounted: [onMount]
    registers the click handler and then throws, and [onUnmount] throws
    before it reaches [_unbindClicks]. After the unmount the only class
    has an empty instance set, and the click handler is still
    registered. *)
Lemma click_listener_stays_after_failed_unmount :
  let s := (Listeners.run (L := demo_lib)
              [Listeners.OSetBinding (L := demo_lib) (Some "a") 7 100;
               Listeners.OMount demo_dom demo_stranger]
              Listeners.init).1 in
  let r := Listeners.step (Listeners.OUnmount (L := demo_lib) demo_stranger) s in
  r.1.1 = Throw TypeError
  ∧ Listeners._handlers r.1.2
    = [(100, {| Listeners.bindings := [(demo_keySets, 7)]; Listeners.instances := [] |})]
  ∧ Listeners.no_instance_left r.1.2
  ∧ Listeners.doc_click s = 1
  ∧ Listeners.doc_click r.1.2 = 1.
Proof.
  repeat split; try reflexivity.
  intros target h Hin. apply list_elem_of_singleton in Hin. by simplify_eq.
Qed.

(** C8 on an example: the only mounted instance is unmounted. *)
Lemma document_listeners_attached_once_witness :
  let s := (Listeners.run (L := demo_lib) demo_ops Listeners.init).1 in
  let op := Listeners.OUnmount (L := demo_lib) demo_instance in
  let s' := (Listeners.step op s).1.2 in
  Listeners.getBinding (Listeners.prototype demo_instance) s ≠ None
  ∧ (Listeners.doc_click s' = 0 ↔ Listeners.no_instance_left s').
Proof.
  intros s op s'.
  assert (Listeners.getBinding (Listeners.prototype demo_instance) s ≠ None) as Hb
    by (vm_compute; discriminate).
  split; [exact Hb|].
  exact (proj2 (proj2 (proj2
           (document_listeners_attached_once (L := demo_lib) demo_ops op)))
           demo_instance eq_refl Hb).
Defined.

(** * Further properties of the store *)

Section StoreMore.
Context `{L : KeyLib}.
Import Store.

Implicit Types (s : State) (arr : list Value) (v x : Value) (o : Obj).

Lemma getBinding_activate v (instances : Arg) s :
  getBinding v (activate instances s) = getBinding v s.
Proof. unfold activate. by destruct (length (concat instances) =? 0). Qed.

Lemma findBindingForEvent_loop_frame event s s' n :
  _instances2 s' = _instances2 s → (∀ v, getBinding v s' = getBinding v s) →
  findBindingForEvent_loop event s' n = findBindingForEvent_loop event s n.
Proof.
  intros Hi Hg. induction n as [|n IH]; simpl; [done|].
  by rewrite Hi, Hg, IH.
Qed.

(** An instance without own identifier reads the one of its prototype. *)
Lemma get_uuid_inherited (h : gmap nat N) o c :
  chain o = self c :: chain c → h !! self o = None → get_uuid h o = get_uuid h c.
Proof. intros Hc Ho. unfold get_uuid. simpl. by rewrite Ho, Hc. Qed.

Lemma setBinding_heap_other keys f c s (k : nat) :
  k ≠ self c → heap (setBinding keys f c s) !! k = heap s !! k.
Proof.
  intros Hk. unfold setBinding.
  destruct (negb (truthy (get_uuid (heap s) c))); simpl; [|done].
  by rewrite lookup_insert_ne.
Qed.

(** The backwards scan over records that do not carry the identifier. *)
Lemma getBinding_loop_skip (hs : list Hand) (u : option N) i k :
  k ≤ i →
  (∀ j, k ≤ j < i → ∃ h, hs !! j = Some h ∧ uuid_eq (targetUuid h) u = false) →
  getBinding_loop hs u i = getBinding_loop hs u k.
Proof.
  induction i as [|i IH]; intros Hk Hno.
  - by replace k with 0 by lia.
  - destruct (decide (k = S i)) as [->|Hne]; [done|].
    simpl. destruct (Hno i) as (h & -> & ->); [lia|].
    apply IH; [lia|]. intros j Hj. apply Hno. lia.
Qed.

Lemma getBinding_loop_app_l (hs hs' : list Hand) (u : option N) i :
  i ≤ length hs → getBinding_loop (hs ++ hs') u i = getBinding_loop hs u i.
Proof.
  induction i as [|i IH]; intros Hi; simpl; [done|].
  rewrite lookup_app_l by lia. destruct (hs !! i); [|done].
  rewrite IH by lia. done.
Qed.

Lemma getBinding_loop_none (hs : list Hand) (u : option N) :
  (∀ h, h ∈ hs → uuid_eq (targetUuid h) u = false) →
  getBinding_loop hs u (length hs) = Ok BUndef.
Proof.
  intros Hno. rewrite (getBinding_loop_skip hs u (length hs) 0); [done|lia|].
  intros j Hj. destruct (lookup_lt_is_Some_2 hs j) as [h Hh]; [lia|].
  exists h. split; [done|]. apply Hno. by eapply list_elem_of_lookup_2.
Qed.

Lemma getBinding_loop_latest (hs1 hs2 : list Hand) (h : Hand) (u : option N) :
  uuid_eq (targetUuid h) u = true →
  (∀ h', h' ∈ hs2 → uuid_eq (targetUuid h') u = false) →
  getBinding_loop (hs1 ++ h :: hs2) u (length (hs1 ++ h :: hs2))
  = Ok (BPairs [(keySets h, fn h)]).
Proof.
  intros Hh Hno.
  rewrite (getBinding_loop_skip _ u _ (S (length hs1))).
  - simpl. by rewrite list_lookup_middle, Hh.
  - rewrite length_app. simpl. lia.
  - intros j Hj. rewrite length_app in Hj. simpl in Hj.
    destruct (lookup_lt_is_Some_2 hs2 (j - S (length hs1))) as [h' Hh']; [lia|].
    exists h'. split.
    + rewrite lookup_app_r by lia.
      replace (j - length hs1) with (S (j - S (length hs1))) by lia. done.
    + apply Hno. by eapply list_elem_of_lookup_2.
Qed.

(** The scan of [activate] over entries that are not equal to the value. *)
Lemma scan_pop_skip i k x arr :
  k ≤ i → (∀ j, k ≤ j < i → loose_eq (index arr j) x = false) →
  scan_pop i x arr = scan_pop k x arr.
Proof.
  induction i as [|i IH]; intros Hk Hno.
  - by replace k with 0 by lia.
  - destruct (decide (k = S i)) as [->|Hne]; [done|].
    simpl. rewrite (Hno i) by lia. apply IH; [lia|]. intros j Hj. apply Hno. lia.
Qed.

Lemma activate_one_single pre post x :
  (∀ y, y ∈ pre → loose_eq y x = false) →
  (∀ y, y ∈ post → loose_eq y x = false) →
  activate_one (pre ++ x :: post) x = removelast (pre ++ x :: post) ++ [x].
Proof.
  intros Hpre Hpost. unfold activate_one. f_equal.
  set (arr := pre ++ x :: post).
  assert (length arr = length pre + S (length post)) as Hlen
    by (subst arr; rewrite length_app; simpl; lia).
  assert (∀ j y, pre !! j = Some y → arr !! j = Some y) as Hl.
  { intros j y Hj. subst arr. rewrite lookup_app_l; [done|]. by eapply lookup_lt_Some. }
  rewrite (scan_pop_skip _ (S (length pre))).
  - simpl. unfold index at 1. subst arr. rewrite list_lookup_middle by done. simpl.
    rewrite loose_eq_refl. unfold pop. apply scan_pop_no_match.
    intros j Hj. unfold index. rewrite removelast_firstn_len.
    rewrite lookup_take_lt by lia.
    destruct (lookup_lt_is_Some_2 pre j Hj) as [y Hy].
    rewrite (Hl j y Hy). simpl. apply Hpre. by eapply list_elem_of_lookup_2.
  - lia.
  - intros j Hj. unfold index. subst arr.
    destruct (lookup_lt_is_Some_2 post (j - S (length pre))) as [y Hy]; [lia|].
    rewrite lookup_app_r by lia.
    replace (j - length pre) with (S (j - S (length pre))) by lia. simpl.
    rewrite Hy. simpl. apply Hpost. by eapply list_elem_of_lookup_2.
Qed.

Lemma fold_activate_one_last (vs : list Value) arr :
  vs ≠ [] → last (fold_left activate_one vs arr) = last vs.
Proof.
  induction vs as [|v vs IH] using rev_ind; [done|]. intros _.
  rewrite fold_left_app. simpl.
  destruct (activate_one_snoc (fold_left activate_one vs arr) v) as [k ->].
  by rewrite !last_snoc.
Qed.

(** What a scan of the stack that returns [null] has seen, and what makes
    it return a callback. *)
Lemma findBindingForEvent_loop_None event s n :
  findBindingForEvent_loop event s n = Ok None ↔
  ∀ j, j < n →
    ∃ bs, getBinding (index (_instances2 s) j) s = Ok (BPairs bs)
          ∧ for_of event bs = None.
Proof.
  induction n as [|n IH]; simpl.
  - split; [intros _ j Hj; lia|done].
  - destruct (getBinding (index (_instances2 s) n) s) as [[| |bs]|e] eqn:Hg.
    + split; [done|]. intros H. destruct (H n) as (bs & Hb & _); [lia|congruence].
    + split; [done|]. intros H. destruct (H n) as (bs & Hb & _); [lia|congruence].
    + destruct (for_of event bs) as [g|] eqn:Hf.
      * split; [done|]. intros H. destruct (H n) as (bs' & Hb & Hf'); [lia|congruence].
      * rewrite IH. split.
        -- intros H j Hj. destruct (decide (j = n)) as [->|Hne]; [eauto|apply H; lia].
        -- intros H j Hj. apply H. lia.
    + split; [done|]. intros H. destruct (H n) as (bs & Hb & _); [lia|congruence].
Qed.

Lemma findBindingForEvent_loop_complete event s n i bs f :
  i < n →
  getBinding (index (_instances2 s) i) s = Ok (BPairs bs) →
  for_of event bs = Some f →
  (∀ j, i < j < n →
     ∃ bs', getBinding (index (_instances2 s) j) s = Ok (BPairs bs')
            ∧ for_of event bs' = None) →
  findBindingForEvent_loop event s n = Ok (Some (f, index (_instances2 s) i)).
Proof.
  intros Hi Hg Hf. induction n as [|n IH]; intros Habove; [lia|]. simpl.
  destruct (decide (i = n)) as [->|Hne].
  - by rewrite Hg, Hf.
  - destruct (Habove n) as (bs' & -> & ->); [lia|].
    apply IH; [lia|]. intros j Hj. apply Habove. lia.
Qed.

Lemma setBinding_handlers keys f o s :
  _handlers2 (setBinding keys f o s)
  = _handlers2 s
    ++ [{| targetUuid := get_uuid (heap (setBinding keys f o s)) o;
           keySets := parsed keys; fn := f |}].
Proof. unfold setBinding. by destruct (negb (truthy (get_uuid (heap s) o))). Qed.

Lemma setBinding_truthy keys f o s :
  (∀ n, uuid n ≠ 0%N) → truthy (get_uuid (heap (setBinding keys f o s)) o) = true.
Proof.
  intros Hgen. unfold setBinding.
  destruct (truthy (get_uuid (heap s) o)) eqn:Ht; simpl; [done|].
  rewrite get_uuid_insert_self. simpl. by apply negb_true_iff, N.eqb_neq.
Qed.

Lemma setBinding_again keys f o s :
  truthy (get_uuid (heap s) o) = true →
  setBinding keys f o s
  = {| _handlers2 := _handlers2 s
         ++ [{| targetUuid := get_uuid (heap s) o; keySets := parsed keys; fn := f |}];
       _instances2 := _instances2 s; heap := heap s; uuid_calls := uuid_calls s |}.
Proof. intros Ht. unfold setBinding. by rewrite Ht. Qed.

End StoreMore.

Section StoreExtras.
Context `{L : KeyLib}.
Import Store.

(** X1. Registering a binding for a class and activating an instance of
    it makes the store dispatch to it: for every event that matches the
    key-sets (every event at all when the binding was registered without
    keys), [findBindingForEvent] returns the callback together with the
    instance, whatever else is on the stack. The instance has no
    identifier of its own and reads the one of its prototype. *)
Theorem store_registered_binding_is_dispatched :
  (∀ n, uuid n ≠ 0%N) →
  ∀ keys (f : Fn) (c o : Obj) (s : State) (event : Event EventData),
    chain o = self c :: chain c → self o ≠ self c → heap s !! self o = None →
    binding_matches event (parsed keys) = true →
    findBindingForEvent event (activate (One (VObj o)) (setBinding keys f c s))
    = Ok (Some (f, VObj o)).
Proof.
  intros Hgen keys f c o s event Hc Hne Ho Hm.
  set (s1 := setBinding keys f c s).
  assert (getBinding (VObj o) s1 = Ok (BPairs [(parsed keys, f)])) as Hg.
  { rewrite <- (store_set_then_get keys f c s Hgen). fold s1.
    unfold getBinding. rewrite (get_uuid_inherited (heap s1) o c); [done..|].
    subst s1. rewrite setBinding_heap_other; done. }
  set (s2 := activate (One (VObj o)) s1).
  assert (∃ pre, _instances2 s2 = pre ++ [VObj o]) as [pre Hpre].
  { subst s2. rewrite activate_One.
    destruct (activate_one_snoc (_instances2 s1) (VObj o)) as [k ->]. eauto. }
  assert (getBinding (VObj o) s2 = Ok (BPairs [(parsed keys, f)])) as Hg2
    by (subst s2; by rewrite getBinding_activate).
  clearbody s2. unfold findBindingForEvent.
  rewrite Hpre, length_app, Nat.add_1_r. simpl.
  rewrite Hpre, index_snoc, Hg2. simpl. by rewrite Hm.
Qed.

(** X2. For an object, [getBinding] never throws, and what it returns is
    decided by the latest record: [null] when the object has no truthy
    identifier, [undefined] when no record carries its identifier, and
    otherwise the single pair of the record pushed last among those that
    carry it. *)
Theorem store_getBinding_latest_record :
  ∀ (o : Obj) (s : State),
    let u := get_uuid (heap s) o in
    (truthy u = false → getBinding (VObj o) s = Ok BNull)
    ∧ (truthy u = true →
       (∀ h, h ∈ _handlers2 s → uuid_eq (targetUuid h) u = false) →
       getBinding (VObj o) s = Ok BUndef)
    ∧ (truthy u = true →
       ∀ hs1 h hs2,
         _handlers2 s = hs1 ++ h :: hs2 →
         uuid_eq (targetUuid h) u = true →
         (∀ h', h' ∈ hs2 → uuid_eq (targetUuid h') u = false) →
         getBinding (VObj o) s = Ok (BPairs [(keySets h, fn h)])).
Proof.
  intros o s u. unfold getBinding. fold u. repeat split.
  - by intros ->.
  - intros -> Hno. simpl. by apply getBinding_loop_none.
  - intros -> hs1 h hs2 -> Hh Hno. simpl. by apply getBinding_loop_latest.
Qed.

(** X3. Registering a binding for one target leaves what [getBinding]
    returns for another target as it was, provided the call does not
    change the other target's identifier and the two identifiers differ. *)
Theorem store_setBinding_leaves_other_targets :
  ∀ keys (f : Fn) (a b : Obj) (s : State),
    let s' := setBinding keys f b s in
    get_uuid (heap s') a = get_uuid (heap s) a →
    uuid_eq (get_uuid (heap s') b) (get_uuid (heap s) a) = false →
    getBinding (VObj a) s' = getBinding (VObj a) s.
Proof.
  intros keys f a b s s' Ha Hb. unfold getBinding. rewrite Ha.
  destruct (negb (truthy (get_uuid (heap s) a))); [done|].
  subst s'. rewrite setBinding_handlers, length_app, Nat.add_1_r. simpl.
  rewrite list_lookup_middle by done. simpl. rewrite Hb.
  by apply getBinding_loop_app_l.
Qed.

(** X4. A target is given an identifier once: a second registration for
    it does not call [uuid()] and does not touch the target, and both
    records carry the same truthy identifier. *)
Theorem store_identifier_assigned_once :
  (∀ n, uuid n ≠ 0%N) →
  ∀ keys1 (f1 : Fn) keys2 (f2 : Fn) (o : Obj) (s : State),
    let s1 := setBinding keys1 f1 o s in
    let s2 := setBinding keys2 f2 o s1 in
    uuid_calls s2 = uuid_calls s1
    ∧ heap s2 = heap s1
    ∧ ∃ u, truthy u = true
        ∧ _handlers2 s2
          = _handlers2 s
            ++ [{| targetUuid := u; keySets := parsed keys1; fn := f1 |};
                {| targetUuid := u; keySets := parsed keys2; fn := f2 |}].
Proof.
  intros Hgen keys1 f1 keys2 f2 o s s1 s2.
  pose proof (setBinding_truthy keys1 f1 o s Hgen) as Ht. fold s1 in Ht.
  subst s2. rewrite (setBinding_again keys2 f2 o s1 Ht). simpl.
  repeat split. exists (get_uuid (heap s1) o). split; [done|].
  subst s1. by rewrite setBinding_handlers, <- app_assoc.
Qed.

(** X5. [_resetStore] forgets bindings and activations but not
    identifiers: afterwards no event finds a binding and [getBinding] of
    a target that was bound returns [undefined], not [null]; registering
    for that target again reuses its identifier without calling [uuid()]
    and the binding is found again. *)
Theorem store_reset_keeps_identifiers :
  (∀ n, uuid n ≠ 0%N) →
  ∀ keys (f : Fn) (o : Obj) (s : State) (event : Event EventData),
    let s2 := _resetStore (setBinding keys f o s) in
    let s3 := setBinding keys f o s2 in
    findBindingForEvent event s2 = Ok None
    ∧ getBinding (VObj o) s2 = Ok BUndef
    ∧ uuid_calls s3 = uuid_calls s2
    ∧ getBinding (VObj o) s3 = Ok (BPairs [(parsed keys, f)]).
Proof.
  intros Hgen keys f o s event s2 s3.
  pose proof (setBinding_truthy keys f o s Hgen) as Ht.
  assert (truthy (get_uuid (heap s2) o) = true) as Ht2 by done.
  repeat split.
  - unfold getBinding. simpl. by rewrite Ht.
  - subst s3. by rewrite (setBinding_again keys f o s2 Ht2).
  - by apply store_set_then_get.
Qed.

(** X6. Activating a value that is equal to no entry of the stack pushes
    it and keeps every entry. *)
Theorem store_activate_new_value_is_pushed :
  ∀ (x : Value) (s : State),
    (∀ y, y ∈ _instances2 s → loose_eq y x = false) →
    _instances2 (activate (One x) s) = _instances2 s ++ [x].
Proof.
  intros x s Hno. rewrite activate_One. unfold activate_one.
  rewrite scan_pop_no_match; [done|].
  intros j Hj. unfold index.
  destruct (lookup_lt_is_Some_2 (_instances2 s) j Hj) as [y Hy]. rewrite Hy. simpl.
  apply Hno. by eapply list_elem_of_lookup_2.
Qed.

(** X7. Activating a value that is in the stack exactly once removes the
    last entry of the stack, whichever it is, and pushes the value: the
    stack is unchanged when the value was on top, and otherwise the entry
    on top is lost while the value stays where it was and is pushed a
    second time. *)
Theorem store_activate_present_value_drops_top :
  ∀ (pre post : list Value) (x : Value) (s : State),
    _instances2 s = pre ++ x :: post →
    (∀ y, y ∈ pre → loose_eq y x = false) →
    (∀ y, y ∈ post → loose_eq y x = false) →
    _instances2 (activate (One x) s) = removelast (_instances2 s) ++ [x].
Proof.
  intros pre post x s Hs Hpre Hpost. rewrite activate_One, Hs.
  by apply activate_one_single.
Qed.

(** X8. [activate] cannot deactivate: with an empty array it changes
    nothing, and with anything else the value activated last is on top of
    the stack afterwards. *)
Theorem store_activate_last_value_on_top :
  ∀ (instances : Arg) (s : State),
    (concat instances = [] → activate instances s = s)
    ∧ (concat instances ≠ [] →
       last (_instances2 (activate instances s)) = last (concat instances)).
Proof.
  intros instances s. unfold activate. split.
  - by intros ->.
  - intros Hne. destruct (length (concat instances) =? 0) eqn:E.
    + apply Nat.eqb_eq, nil_length_inv in E. done.
    + simpl. by apply fold_activate_one_last.
Qed.

(** X9. [findBindingForEvent] returns [null] exactly when every entry of
    the stack has bindings and none of them matches the event. *)
Theorem store_findBindingForEvent_null_iff :
  ∀ (event : Event EventData) (s : State),
    findBindingForEvent event s = Ok None ↔
    ∀ j, j < length (_instances2 s) →
      ∃ bs, getBinding (index (_instances2 s) j) s = Ok (BPairs bs)
            ∧ for_of event bs = None.
Proof. intros event s. apply findBindingForEvent_loop_None. Qed.

(** X10. [findBindingForEvent] returns a callback with a stack entry
    exactly when that entry has a first matching binding with this
    callback and every entry above it has bindings that do not match. *)
Theorem store_findBindingForEvent_some_iff :
  ∀ (event : Event EventData) (s : State) (f : Fn) (v : Value),
    findBindingForEvent event s = Ok (Some (f, v)) ↔
    ∃ i bs,
      i < length (_instances2 s)
      ∧ index (_instances2 s) i = v
      ∧ getBinding v s = Ok (BPairs bs)
      ∧ for_of event bs = Some f
      ∧ ∀ j, i < j < length (_instances2 s) →
          ∃ bs', getBinding (index (_instances2 s) j) s = Ok (BPairs bs')
                 ∧ for_of event bs' = None.
Proof.
  intros event s f v. split.
  - apply findBindingForEvent_loop_Some.
  - intros (i & bs & Hi & <- & Hg & Hf & Habove).
    by apply (findBindingForEvent_loop_complete event s _ i bs f).
Qed.

End StoreExtras.

(** * Further properties of the store on concrete inputs *)

Lemma demo_lib_truthy : ∀ n, uuid (KeyLib := demo_lib) n ≠ 0%N.
Proof. intros n. simpl. lia. Qed.

(** X1 on an example: key "a" bound for the class of an instance that is
    then activated. *)
Lemma store_registered_binding_is_dispatched_witness :
  (∀ n, uuid (KeyLib := demo_lib) n ≠ 0%N)
  ∧ Store.chain demo_obj = Store.self demo_class :: Store.chain demo_class
  ∧ Store.self demo_obj ≠ Store.self demo_class
  ∧ Store.heap (Store.init (L := demo_lib)) !! Store.self demo_obj = None
  ∧ Store.binding_matches (L := demo_lib) (demo_event "DIV" "a")
      (Store.parsed (L := demo_lib) (Some "a")) = true
  ∧ Store.findBindingForEvent (L := demo_lib) (demo_event "DIV" "a")
      (Store.activate (Store.One (Store.VObj demo_obj))
         (Store.setBinding (L := demo_lib) (Some "a") 7 demo_class Store.init))
    = Ok (Some (7, Store.VObj demo_obj)).
Proof.
  assert (Store.self demo_obj ≠ Store.self demo_class) as Hne by (simpl; lia).
  split; [exact demo_lib_truthy|]. split; [reflexivity|]. split; [exact Hne|].
  split; [reflexivity|]. split; [reflexivity|].
  exact (store_registered_binding_is_dispatched (L := demo_lib) demo_lib_truthy
           (Some "a") 7 demo_class demo_obj Store.init (demo_event "DIV" "a")
           eq_refl Hne eq_refl eq_refl).
Defined.

(** X2 on examples: the class before any registration, after a reset,
    and after two registrations. *)
Lemma store_getBinding_latest_record_witness :
  (Store.truthy (Store.get_uuid (Store.heap (Store.init (L := demo_lib))) demo_class) = false
   ∧ Store.getBinding (L := demo_lib) (Store.VObj demo_class) Store.init = Ok Store.BNull)
  ∧ (Store.truthy (Store.get_uuid (Store.heap (Store._resetStore demo_store)) demo_class) = true
     ∧ Store.getBinding (Store.VObj demo_class) (Store._resetStore demo_store)
       = Ok Store.BUndef)
  ∧ (Store.truthy (Store.get_uuid (Store.heap demo_store) demo_class) = true
     ∧ Store.getBinding (Store.VObj demo_class) demo_store
       = Ok (Store.BPairs [(Store.Sets (L := demo_lib) ["b"], 2)])).
Proof.
  split; [split; [reflexivity|]|split; (split; [reflexivity|])].
  - exact (proj1 (store_getBinding_latest_record (L := demo_lib) demo_class Store.init)
             eq_refl).
  - refine (proj1 (proj2 (store_getBinding_latest_record (L := demo_lib) demo_class
                            (Store._resetStore demo_store))) eq_refl _).
    intros h Hh. simpl in Hh. by apply elem_of_nil in Hh.
  - refine (proj2 (proj2 (store_getBinding_latest_record (L := demo_lib) demo_class
                            demo_store)) eq_refl
              [ {| Store.targetUuid := Some 1%N;
                   Store.keySets := Store.Sets (L := demo_lib) ["a"]; Store.fn := 1 |} ]
              {| Store.targetUuid := Some 1%N;
                 Store.keySets := Store.Sets (L := demo_lib) ["b"]; Store.fn := 2 |}
              [] eq_refl eq_refl _).
    intros h Hh. by apply elem_of_nil in Hh.
Defined.

(** X3 on an example: a second class is bound after the first. *)
Lemma store_setBinding_leaves_other_targets_witness :
  let other := {| Store.self := 20; Store.chain := [] |} in
  let s := Store.setBinding (L := demo_lib) (Some "a") 1 demo_class Store.init in
  let s' := Store.setBinding (L := demo_lib) (Some "b") 2 other s in
  Store.get_uuid (Store.heap s') demo_class = Store.get_uuid (Store.heap s) demo_class
  ∧ Store.uuid_eq (Store.get_uuid (Store.heap s') other)
      (Store.get_uuid (Store.heap s) demo_class) = false
  ∧ Store.getBinding (Store.VObj demo_class) s' = Store.getBinding (Store.VObj demo_class) s.
Proof.
  intros other s s'. split; [reflexivity|]. split; [reflexivity|].
  exact (store_setBinding_leaves_other_targets (L := demo_lib) (Some "b") 2
           demo_class other s eq_refl eq_refl).
Defined.

(** X4 on an example: two registrations for one class. *)
Lemma store_identifier_assigned_once_witness :
  (∀ n, uuid (KeyLib := demo_lib) n ≠ 0%N)
  ∧ Store.uuid_calls demo_store = 1
  ∧ ∃ u, Store.truthy u = true
      ∧ Store._handlers2 demo_store
        = Store._handlers2 (Store.init (L := demo_lib))
          ++ [ {| Store.targetUuid := u;
                  Store.keySets := Store.parsed (L := demo_lib) (Some "a"); Store.fn := 1 |};
               {| Store.targetUuid := u;
                  Store.keySets := Store.parsed (L := demo_lib) (Some "b"); Store.fn := 2 |} ].
Proof.
  split; [exact demo_lib_truthy|]. split; [reflexivity|].
  exact (proj2 (proj2 (store_identifier_assigned_once (L := demo_lib) demo_lib_truthy
                         (Some "a") 1 (Some "b") 2 demo_class Store.init))).
Defined.

(** X5 on an example: a class bound, the store reset, the class bound
    again. *)
Lemma store_reset_keeps_identifiers_witness :
  let s2 := Store._resetStore
              (Store.setBinding (L := demo_lib) (Some "a") 1 demo_class Store.init) in
  (∀ n, uuid (KeyLib := demo_lib) n ≠ 0%N)
  ∧ Store.getBinding (Store.VObj demo_class) s2 = Ok Store.BUndef
  ∧ Store.uuid_calls (Store.setBinding (L := demo_lib) (Some "a") 1 demo_class s2) = 1.
Proof.
  intros s2. split; [exact demo_lib_truthy|].
  pose proof (store_reset_keeps_identifiers (L := demo_lib) demo_lib_truthy
                (Some "a") 1 demo_class Store.init (demo_event "DIV" "a"))
    as (_ & H2 & H3 & _).
  split; [exact H2|exact H3].
Defined.

(** X6 on an example: b is activated while only a is on the stack. *)
Lemma store_activate_new_value_is_pushed_witness :
  (∀ y, y ∈ Store._instances2 (demo_stack [demo_a]) → Store.loose_eq y demo_b = false)
  ∧ Store._instances2 (Store.activate (Store.One demo_b) (demo_stack [demo_a]))
    = [demo_a; demo_b].
Proof.
  assert (∀ y, y ∈ Store._instances2 (demo_stack [demo_a]) →
               Store.loose_eq y demo_b = false) as H.
  { intros y Hy. simpl in Hy. apply list_elem_of_singleton in Hy. by subst y. }
  split; [exact H|].
  exact (store_activate_new_value_is_pushed (L := demo_lib) demo_b (demo_stack [demo_a]) H).
Defined.

(** X7 on an example: a is activated while it lies below b. *)
Lemma store_activate_present_value_drops_top_witness :
  Store._instances2 (demo_stack [demo_a; demo_b]) = [] ++ demo_a :: [demo_b]
  ∧ (∀ y, y ∈ @nil Store.Value → Store.loose_eq y demo_a = false)
  ∧ (∀ y, y ∈ [demo_b] → Store.loose_eq y demo_a = false)
  ∧ Store._instances2 (Store.activate (Store.One demo_a) (demo_stack [demo_a; demo_b]))
    = removelast (Store._instances2 (demo_stack [demo_a; demo_b])) ++ [demo_a].
Proof.
  assert (∀ y, y ∈ @nil Store.Value → Store.loose_eq y demo_a = false) as H1.
  { intros y Hy. by apply elem_of_nil in Hy. }
  assert (∀ y, y ∈ [demo_b] → Store.loose_eq y demo_a = false) as H2.
  { intros y Hy. apply list_elem_of_singleton in Hy. by subst y. }
  split; [reflexivity|]. split; [exact H1|]. split; [exact H2|].
  exact (store_activate_present_value_drops_top (L := demo_lib) [] [demo_b] demo_a
           (demo_stack [demo_a; demo_b]) eq_refl H1 H2).
Defined.

(** X8 on examples: an empty array, and the array of a and b. *)
Lemma store_activate_last_value_on_top_witness :
  (Store.concat (Store.Many []) = []
   ∧ Store.activate (Store.Many []) (demo_stack [demo_a]) = demo_stack [demo_a])
  ∧ (Store.concat (Store.Many [demo_a; demo_b]) ≠ []
     ∧ last (Store._instances2
               (Store.activate (Store.Many [demo_a; demo_b]) (demo_stack [])))
       = last (Store.concat (Store.Many [demo_a; demo_b]))).
Proof.
  assert (Store.concat (Store.Many [demo_a; demo_b]) ≠ []) as Hne by (simpl; discriminate).
  split; [split; [reflexivity|]|split; [exact Hne|]].
  - exact (proj1 (store_activate_last_value_on_top (L := demo_lib) (Store.Many [])
                    (demo_stack [demo_a])) eq_refl).
  - exact (proj2 (store_activate_last_value_on_top (L := demo_lib)
                    (Store.Many [demo_a; demo_b]) (demo_stack [])) Hne).
Defined.

(** * Further properties of the listeners module *)

Section ListenersMore.
Context `{L : KeyLib}.
Import Listeners.

Implicit Types (s : State) (i instance : Instance) (t : list Effect) (f : Fn) (a : Focus).

Ltac unfold_m := unfold bind, ret, throw, get, modify, emit, lift in *.

(** The [forEach] of the keydown handler calls the callbacks of the
    matching bindings, one after the other. *)
Lemma forEach_binding_trace this event (bs : list (KeySetsArr * Fn)) s :
  forEach_binding this event bs s
  = (Ok tt, s, map (fun b => Call b.2 this event) (List.filter (matches event) bs)).
Proof.
  induction bs as [|[ks g] bs IH]; simpl; [done|].
  unfold_m. unfold matches at 1. simpl.
  destruct (existsb _ (elems ks)); simpl; by rewrite IH.
Qed.

Lemma map_get_set_ne {V} k k' (v : V) m :
  k ≠ k' → map_get k' (map_set k v m) = map_get k' m.
Proof.
  intros Hne. induction m as [|[k0 v0] m IH]; simpl.
  - destruct (k =? k') eqn:E; [apply Nat.eqb_eq in E; done|done].
  - destruct (k0 =? k) eqn:E; simpl.
    + apply Nat.eqb_eq in E as ->.
      destruct (k =? k') eqn:E'; [apply Nat.eqb_eq in E'; done|done].
    + by rewrite IH.
Qed.

Lemma some_instances_tracked (hs : list (nat * Handler)) :
  some_instances hs = true ↔ flat_map (fun '(_, h) => instances h) hs ≠ [].
Proof.
  induction hs as [|[k h] hs IH]; simpl; [done|].
  destruct (instances h) as [|i l]; simpl; [done|]. done.
Qed.

Lemma run_cons_state op ops s :
  (run (op :: ops) s).1 = (run ops (step op s).1.2).1.
Proof.
  simpl. destruct (step op s) as [[r s1] t1]. simpl. by destruct (run ops s1).
Qed.

(** A run of registrations for one class appends them in order. *)
Lemma registrations_appended (regs : list (option Keys * Fn)) target s :
  refs_fresh s →
  let s' := (run (map (fun r => OSetBinding r.1 r.2 target) regs) s).1 in
  let h0 := default {| bindings := []; instances := [] |} (getBinding target s) in
  let h' := default {| bindings := []; instances := [] |} (getBinding target s') in
  map (fun b => (elems b.1, b.2)) (bindings h')
  = map (fun b => (elems b.1, b.2)) (bindings h0) ++ map (fun r => (parsed r.1, r.2)) regs
  ∧ instances h' = instances h0.
Proof.
  revert s. induction regs as [|[keys g] regs IH]; intros s Hs.
  - simpl. by rewrite app_nil_r.
  - cbn [map]. rewrite run_cons_state. cbn [step fst snd].
    destruct (setBinding_appends keys g target s Hs) as (s1 & E & Hg1).
    pose proof (setBinding_refs_fresh keys g target s Hs) as Hs1.
    rewrite E in *. simpl in Hs1. simpl.
    destruct (IH s1 Hs1) as [Hb Hi]. rewrite Hg1 in Hb, Hi. simpl in Hb, Hi.
    rewrite Hb, Hi, map_app. simpl. by rewrite <- app_assoc.
Qed.

(** *** Clicks *)

Lemma find_app_first {A} (p : A → bool) (l1 l2 : list A) :
  List.find p (l1 ++ l2)
  = match List.find p l1 with Some x => Some x | None => List.find p l2 end.
Proof. induction l1 as [|x l1 IH]; simpl; [done|]. by destruct (p x). Qed.

Lemma find_rendered dom target (l : list Instance) :
  (∀ i, i ∈ l → findDOMNode dom i ≠ None) →
  find dom target l
  = Ok (match List.find (hits dom target) l with
        | Some i => FInst i
        | None => FUndefined
        end).
Proof.
  induction l as [|i l IH]; intros Hl; simpl; [done|].
  unfold _findFocused, hits.
  destruct (findDOMNode dom i) as [node|] eqn:Hn.
  - destruct ((target =? node) || contains dom node target); [done|].
    apply IH. intros j Hj. apply Hl. by right.
  - exfalso. apply (Hl i); [left|done].
Qed.

Lemma _handleClick_loop_rendered dom target (hs : list (nat * Handler)) acc :
  (∀ i, i ∈ flat_map (fun '(_, h) => instances h) hs → findDOMNode dom i ≠ None) →
  _handleClick_loop dom target hs acc
  = Ok (match List.find (hits dom target) (flat_map (fun '(_, h) => instances h) hs) with
        | Some i => FInst i
        | None => match hs with [] => acc | _ :: _ => FUndefined end
        end).
Proof.
  revert acc. induction hs as [|[k h] hs IH]; intros acc Hl; simpl; [done|].
  rewrite find_rendered.
  2:{ intros i Hi. apply Hl. simpl. apply elem_of_app. by left. }
  rewrite find_app_first.
  destruct (List.find (hits dom target) (instances h)) as [i|]; [done|].
  rewrite IH.
  2:{ intros i Hi. apply Hl. simpl. apply elem_of_app. by right. }
  destruct (List.find _ _); [done|]. by destruct hs.
Qed.

Lemma _handleClick_loop_unrendered dom target (hs : list (nat * Handler)) acc i rest :
  flat_map (fun '(_, h) => instances h) hs = i :: rest →
  findDOMNode dom i = None →
  _handleClick_loop dom target hs acc = Throw TypeError.
Proof.
  revert acc. induction hs as [|[k h] hs IH]; intros acc Hl Hn; simpl in *; [done|].
  destruct (instances h) as [|j l]; simpl in *.
  - by apply IH.
  - injection Hl as -> _. unfold _findFocused. by rewrite Hn.
Qed.

(** *** Focus events *)

Lemma run_onfocus_last chain s i :
  last chain = Some i →
  ∃ s', run_onfocus chain s = (Ok tt, s', map (fun j => Activate (FInst j)) chain)
    ∧ _focusedInstance s' = FInst i ∧ _keysBound s' = true
    ∧ _handlers s' = _handlers s ∧ timers s' = timers s.
Proof.
  revert s. induction chain as [|j chain IH]; intros s Hlast; [done|]. simpl.
  unfold_m.
  destruct (_activate_spec (FInst j) s)
    as (s1 & E1 & Hf1 & Hh1 & _ & _ & _ & Ht1 & _ & Hk1 & _).
  rewrite E1. destruct chain as [|k chain].
  - simpl in *. injection Hlast as ->. exists s1. by repeat split.
  - rewrite last_cons_cons in Hlast.
    destruct (IH s1 Hlast) as (s2 & E2 & Hf2 & Hk2 & Hh2 & Ht2). rewrite E2.
    exists s2. repeat split; [done..| |]; congruence.
Qed.

Lemma install_onfocus_lookup i (els : list nat) (m : gmap nat (list Instance)) el :
  NoDup els →
  install_onfocus i els m !! el
  = if bool_decide (el ∈ els) then Some (i :: default [] (m !! el)) else m !! el.
Proof.
  revert m. induction els as [|e els IH]; intros m Hnd; simpl; [done|].
  apply NoDup_cons in Hnd as [Hne Hnd]. rewrite IH by done.
  destruct (decide (el = e)) as [->|Hel].
  - rewrite (bool_decide_eq_false_2 (e ∈ els)) by done.
    rewrite lookup_insert_eq. by rewrite bool_decide_eq_true_2 by left.
  - rewrite lookup_insert_ne by done.
    destruct (decide (el ∈ els)) as [Hin|Hin].
    + rewrite !bool_decide_eq_true_2; [done|by right|done].
    + rewrite !bool_decide_eq_false_2; [done| |done].
      intros [->|?]%elem_of_cons; done.
Qed.

(** *** Mounting *)

Lemma _bindInputs_spec dom i s :
  ∃ m, _bindInputs dom i s = (Ok tt, with_onfocus m s, [])
    ∧ m = (if has_querySelectorAll dom then
             match findDOMNode dom i with
             | Some node => install_onfocus i (querySelectorAll dom node) (onfocus s)
             | None => onfocus s
             end
           else onfocus s).
Proof.
  unfold _bindInputs. unfold_m.
  assert (with_onfocus (onfocus s) s = s) as Hid by (by destruct s).
  destruct (has_querySelectorAll dom); [|exists (onfocus s); by rewrite Hid].
  destruct (findDOMNode dom i) as [node|]; [|exists (onfocus s); by rewrite Hid].
  destruct (querySelectorAll dom node) as [|e els] eqn:Hq; simpl.
  - exists (onfocus s). by rewrite Hid.
  - eexists. split; reflexivity.
Qed.

Lemma onMount_spec dom i s h :
  getBinding (prototype i) s = Some h →
  ∃ s', onMount dom i s = (Ok tt, s', [])
    ∧ _handlers s'
      = map_set (prototype i)
          {| bindings := bindings h; instances := set_add i (instances h) |} (_handlers s)
    ∧ _focusedInstance s' = _focusedInstance s
    ∧ _keysBound s' = _keysBound s ∧ doc_keydown s' = doc_keydown s
    ∧ _clicksBound s' = true
    ∧ doc_click s' = (if _clicksBound s then doc_click s else S (doc_click s))
    ∧ timers s' = timers s ++ [i]
    ∧ next_ref s' = next_ref s
    ∧ onfocus s' = onfocus (_bindInputs dom i s).1.2.
Proof.
  intros Hg. unfold onMount, _bindClicks, _addInstance, update_handler. unfold_m.
  destruct (_clicksBound s) eqn:Hc; simpl.
  - destruct (_bindInputs_spec dom i s) as (m & -> & _). simpl.
    unfold getBinding in *. simpl. rewrite Hg. simpl.
    eexists. split; [reflexivity|]. simpl. by rewrite Hc.
  - destruct (_bindInputs_spec dom i (with_clicks true (S (doc_click s)) s))
      as (m & E & Hm).
    destruct (_bindInputs_spec dom i s) as (m' & E' & Hm').
    rewrite E, E'. simpl. unfold getBinding in *. simpl. rewrite Hg. simpl.
    eexists. split; [reflexivity|]. simpl. repeat split. by rewrite Hm, Hm'.
Qed.

Lemma onUnmount_frame i s :
  timers (onUnmount i s).1.2 = timers s
  ∧ onfocus (onUnmount i s).1.2 = onfocus s
  ∧ next_ref (onUnmount i s).1.2 = next_ref s.
Proof.
  unfold onUnmount, _deleteInstance, _unbindClicks, update_handler. unfold_m.
  destruct (getBinding (prototype i) s); simpl; [|done].
  destruct (_clicksBound s && _); simpl;
    destruct (_focusedInstance s) as [| |j]; simpl; try done;
    case_bool_decide; simpl; try done;
    match goal with |- context [_activate FNull ?s0] =>
      destruct (_activate_spec FNull s0) as (s1 & -> & _ & _ & _ & _ & Ho & Ht & Hn & _)
    end; simpl in *; by rewrite Ho, Ht, Hn.
Qed.

Lemma map_set_set {V} k (v1 v2 : V) m :
  map_set k v2 (map_set k v1 m) = map_set k v2 m.
Proof.
  induction m as [|[k0 v0] m IH]; simpl.
  - by rewrite Nat.eqb_refl.
  - destruct (k0 =? k) eqn:E; simpl; [by rewrite Nat.eqb_refl|by rewrite E, IH].
Qed.

Lemma map_set_same {V} k (v : V) m : map_get k m = Some v → map_set k v m = m.
Proof.
  induction m as [|[k0 v0] m IH]; simpl; [done|].
  destruct (k0 =? k) eqn:E.
  - intros [= ->]. by apply Nat.eqb_eq in E as ->.
  - intros Hg. by rewrite IH.
Qed.

Lemma set_delete_add i (l : list Instance) :
  i ∉ l → set_delete i (set_add i l) = l.
Proof.
  intros Hi. unfold set_add, set_delete. rewrite bool_decide_eq_false_2 by done.
  rewrite filter_app, (filter_cons_False _ i []) by (intros H; by apply H).
  rewrite filter_nil, app_nil_r. induction l as [|j l IH]; [done|].
  apply not_elem_of_cons in Hi as [Hne Hi].
  rewrite filter_cons_True by (intros ->; done). by rewrite IH.
Qed.

Lemma set_delete_not_elem i (l : list Instance) : i ∉ set_delete i l.
Proof. unfold set_delete. intros [Hne _]%list_elem_of_filter. done. Qed.

End ListenersMore.

Section ListenersExtras.
Context `{L : KeyLib}.
Import Listeners.

(** X11. While the keydown listener is registered and an instance of a
    bound class is focused, a keydown outside a text-entry element
    invokes, on that instance and in the order of registration, the
    callback of every binding of the class whose key-sets match the
    event, each once, and leaves the state as it is. *)
Theorem keydown_invokes_matching_bindings_in_order :
  ∀ (event : Event EventData) (s : State) (i : Instance) (h : Handler),
    doc_keydown s ≠ 0 →
    _shouldConsider event = true →
    _focusedInstance s = FInst i →
    getBinding (prototype i) s = Some h →
    dispatch_keydown event s
    = (Ok tt, s, map (fun b => Call b.2 i event) (List.filter (matches event) (bindings h))).
Proof.
  intros event s i h Hd Hc Hf Hg. unfold dispatch_keydown, _handleKeyDown.
  unfold bind, get, ret. simpl.
  destruct (doc_keydown s =? 0) eqn:E; [by apply Nat.eqb_eq in E|].
  rewrite Hc. simpl. rewrite Hf, Hg. by rewrite forEach_binding_trace.
Qed.

(** X12. A keydown is considered exactly when the tag name of its target
    is none of INPUT, SELECT, TEXTAREA in this spelling: a target without
    tag name, and a lower-case name, are considered. *)
Theorem shouldConsider_iff :
  ∀ event : Event EventData,
    _shouldConsider event = true ↔
    ¬ In (target_tagName event) [Some "INPUT"; Some "SELECT"; Some "TEXTAREA"].
Proof.
  intros event. unfold _shouldConsider, indexOf. simpl.
  repeat case_bool_decide; simpl; split; try done; intuition congruence.
Qed.

(** X13. In every state reached from the initial one the keydown listener
    is registered exactly while an instance is focused, so a keydown
    with nothing focused is dropped by the document and the handler is
    never entered with a [null] focused instance. *)
Theorem keydown_listener_follows_focus :
  ∀ ops (event : Event EventData),
    let s := (run ops init).1 in
    doc_keydown s = (if is_inst (_focusedInstance s) then 1 else 0)
    ∧ dispatch_keydown event s
      = (if is_inst (_focusedInstance s) then _handleKeyDown event s else (Ok tt, s, [])).
Proof.
  intros ops event s.
  assert (consistent s) as [_ Hk] by apply run_consistent, init_consistent.
  assert (keys_follow_focus s) as Hkf
    by (apply run_keys_follow_focus; reflexivity).
  unfold keys_follow_focus in Hkf. rewrite Hkf in Hk. split; [done|].
  unfold dispatch_keydown, bind, get, ret. simpl. rewrite Hk.
  destruct (is_inst (_focusedInstance s)); simpl; [|done].
  by destruct (_handleKeyDown event s) as [[[[]|e] s1] t1]; simpl; rewrite ?app_nil_r.
Qed.

(** X14. In every state reached from the initial one, while some class
    has a tracked instance the click listener is registered on the
    document. *)
Theorem click_listener_while_tracked :
  ∀ ops,
    let s := (run ops init).1 in
    some_instances (_handlers s) = true →
    _clicksBound s = true ∧ doc_click s = 1.
Proof.
  intros ops s Hsome.
  assert (consistent s) as [Hc _] by apply run_consistent, init_consistent.
  assert (tracked_implies_bound s) as Ht
    by apply run_tracked_implies_bound, init_tracked_implies_bound.
  specialize (Ht Hsome). by rewrite Hc, Ht.
Qed.

(** X15. Registering a binding for one class changes nothing for another:
    [getBinding] of any other class returns what it returned before. *)
Theorem setBinding_leaves_other_classes :
  ∀ keys (f : Fn) (target other : nat) (s : State),
    target ≠ other →
    getBinding other (setBinding keys f target s).1.2 = getBinding other s.
Proof.
  intros keys f target other s Hne. rewrite setBinding_spec. unfold getBinding. simpl.
  by apply map_get_set_ne.
Qed.

(** X16. In every state reached from the initial one, a run of
    registrations for one class is appended to the bindings of the class
    in order, after the pairs that were there and without touching them
    or the tracked instances: [getBinding] retrieves every registered
    pair. *)
Theorem registrations_are_all_retrieved :
  ∀ ops (regs : list (option Keys * Fn)) (target : nat),
    let s := (run ops init).1 in
    let s' := (run (map (fun r => OSetBinding r.1 r.2 target) regs) s).1 in
    let h0 := default {| bindings := []; instances := [] |} (getBinding target s) in
    let h' := default {| bindings := []; instances := [] |} (getBinding target s') in
    map (fun b => (elems b.1, b.2)) (bindings h')
    = map (fun b => (elems b.1, b.2)) (bindings h0)
      ++ map (fun r => (parsed r.1, r.2)) regs
    ∧ instances h' = instances h0.
Proof.
  intros ops regs target s. apply registrations_appended.
  apply run_refs_fresh, init_refs_fresh.
Qed.

(** X17. A click, when every tracked instance is rendered, focuses the
    first tracked instance (class by class, in insertion order) whose
    node is the click target or contains it; when there is none it
    leaves [undefined] (or [null], when no class is registered) as the
    focused pointer. The keydown flag is set exactly in the first case. *)
Theorem click_focuses_first_instance_hit :
  ∀ (dom : Dom) (target : nat) (s : State),
    doc_click s ≠ 0 →
    (∀ i, i ∈ tracked s → findDOMNode dom i ≠ None) →
    let a := match List.find (hits dom target) (tracked s) with
             | Some i => FInst i
             | None => match _handlers s with [] => FNull | _ :: _ => FUndefined end
             end in
    ∃ s', dispatch_click dom target s = (Ok tt, s', [Activate a])
      ∧ _focusedInstance s' = a
      ∧ _keysBound s' = is_inst a
      ∧ _handlers s' = _handlers s.
Proof.
  intros dom target s Hd Hr a. unfold dispatch_click, _handleClick.
  unfold bind, get, ret, lift. simpl.
  destruct (doc_click s =? 0) eqn:E; [by apply Nat.eqb_eq in E|].
  rewrite (_handleClick_loop_rendered dom target (_handlers s) FNull Hr). fold (tracked s). fold a.
  destruct (_activate_spec a s) as (s' & -> & Hf & Hh & _ & _ & _ & _ & _ & Hk & _).
  exists s'. by repeat split.
Qed.

(** X18. A click while the first tracked instance is not rendered throws a
    [TypeError] and changes nothing: the focused pointer keeps its
    value. *)
Theorem click_throws_when_first_instance_unrendered :
  ∀ (dom : Dom) (target : nat) (s : State) (i : Instance) (rest : list Instance),
    doc_click s ≠ 0 →
    tracked s = i :: rest →
    findDOMNode dom i = None →
    dispatch_click dom target s = (Throw TypeError, s, []).
Proof.
  intros dom target s i rest Hd Ht Hn. unfold dispatch_click, _handleClick.
  unfold bind, get, ret, lift. simpl.
  destruct (doc_click s =? 0) eqn:E; [by apply Nat.eqb_eq in E|].
  by rewrite (_handleClick_loop_unrendered dom target (_handlers s) FNull i rest Ht Hn).
Qed.

(** X19. A focus event on an element without wrapper does nothing. On a
    wrapped element it activates the instances of the wrappers, newest
    first, so that the instance that wrapped the element first ends up
    focused, with the keydown flag set. *)
Theorem focus_event_focuses_first_wrapper :
  ∀ (element : nat) (s : State),
    (onfocus s !! element = None → dispatch_focus element s = (Ok tt, s, []))
    ∧ (∀ chain i,
         onfocus s !! element = Some chain → last chain = Some i →
         ∃ s', dispatch_focus element s
               = (Ok tt, s', map (fun j => Activate (FInst j)) chain)
           ∧ _focusedInstance s' = FInst i
           ∧ _keysBound s' = true).
Proof.
  intros element s. unfold dispatch_focus, bind, get. simpl. split.
  - by intros ->.
  - intros chain i -> Hlast. simpl.
    destruct (run_onfocus_last chain s i Hlast) as (s' & -> & Hf & Hk & _).
    by exists s'.
Qed.

(** X20. [onMount] of a rendered instance of a bound class puts a wrapper
    of the instance in front of the [onfocus] handler of every focusable
    element of its node, and of no other element. *)
Theorem onMount_wraps_focusable_elements :
  ∀ (dom : Dom) (i : Instance) (s : State) (h : Handler) (node element : nat),
    getBinding (prototype i) s = Some h →
    has_querySelectorAll dom = true →
    findDOMNode dom i = Some node →
    NoDup (querySelectorAll dom node) →
    onfocus (onMount dom i s).1.2 !! element
    = if bool_decide (element ∈ querySelectorAll dom node)
      then Some (i :: default [] (onfocus s !! element))
      else onfocus s !! element.
Proof.
  intros dom i s h node element Hg Hq Hn Hnd.
  destruct (onMount_spec dom i s h Hg) as (s' & -> & _ & _ & _ & _ & _ & _ & _ & _ & Ho).
  simpl. rewrite Ho.
  destruct (_bindInputs_spec dom i s) as (m & -> & ->). simpl.
  rewrite Hq, Hn. by apply install_onfocus_lookup.
Qed.

(** X21. [onMount] of an instance of a bound class returns, tracks the
    instance under its class, registers the click listener if it was
    not, and queues the activation: the focused pointer and the keydown
    registration are as before, and other classes are untouched. *)
Theorem onMount_tracks_and_defers_activation :
  ∀ (dom : Dom) (i : Instance) (s : State) (h : Handler),
    getBinding (prototype i) s = Some h →
    ∃ s', onMount dom i s = (Ok tt, s', [])
      ∧ getBinding (prototype i) s'
        = Some {| bindings := bindings h; instances := set_add i (instances h) |}
      ∧ (∀ other, other ≠ prototype i → getBinding other s' = getBinding other s)
      ∧ _clicksBound s' = true
      ∧ doc_click s' = (if _clicksBound s then doc_click s else S (doc_click s))
      ∧ timers s' = timers s ++ [i]
      ∧ _focusedInstance s' = _focusedInstance s
      ∧ _keysBound s' = _keysBound s
      ∧ doc_keydown s' = doc_keydown s.
Proof.
  intros dom i s h Hg.
  destruct (onMount_spec dom i s h Hg)
    as (s' & E & Hh & Hf & Hk & Hdk & Hc & Hdc & Ht & _ & _).
  exists s'. unfold getBinding. rewrite Hh. repeat split; try done.
  - apply map_get_set_eq.
  - intros other Hne. apply map_get_set_ne. congruence.
Qed.

(** X22. Unmounting does not cancel the queued activation: when an
    instance of a bound class is mounted and unmounted before the timer
    runs, the timer still makes it the focused instance and sets the
    keydown flag, although the instance is no longer tracked. *)
Theorem unmount_does_not_cancel_activation :
  ∀ (dom : Dom) (i : Instance) (s : State),
    getBinding (prototype i) s ≠ None →
    timers s = [] →
    let s3 := (run [OMount dom i; OUnmount i; OTimer] s).1 in
    _focusedInstance s3 = FInst i
    ∧ _keysBound s3 = true
    ∧ ∃ h3, getBinding (prototype i) s3 = Some h3 ∧ i ∉ instances h3.
Proof.
  intros dom i s Hg Ht s3. subst s3.
  destruct (getBinding (prototype i) s) as [h|] eqn:Hh; [|done].
  rewrite !run_cons_state. cbn [step run fst].
  destruct (onMount_spec dom i s h Hh)
    as (s1 & E1 & Hh1 & _ & _ & _ & _ & _ & Ht1 & _ & _).
  rewrite E1. cbn [fst snd].
  assert (getBinding (prototype i) s1
          = Some {| bindings := bindings h; instances := set_add i (instances h) |}) as Hg1.
  { unfold getBinding. rewrite Hh1. apply map_get_set_eq. }
  destruct (onUnmount_frame i s1) as (Ht2 & _ & _).
  destruct (onUnmount_returns i s1 _ Hg1) as (s2 & t2 & E2 & Hh2 & _).
  rewrite E2 in *. cbn [fst snd] in *.
  rewrite Ht1, Ht in Ht2. simpl in Ht2.
  unfold fire_timer, bind, get, modify. simpl. rewrite Ht2. simpl.
  match goal with |- context [_activate ?a ?s0] =>
    destruct (_activate_spec a s0) as (s3 & -> & Hf3 & Hh3 & _ & _ & _ & _ & _ & Hk3 & _)
  end.
  simpl in *. repeat split; [done..|].
  eexists. split.
  - unfold getBinding. rewrite Hh3, Hh2. apply map_get_set_eq.
  - simpl. apply set_delete_not_elem.
Qed.

(** X23. Mounting an instance of a bound class that is not tracked and
    unmounting it again leaves the registry of classes, bindings and
    tracked instances exactly as it was. *)
Theorem mount_then_unmount_restores_registry :
  ∀ (dom : Dom) (i : Instance) (s : State) (h : Handler),
    getBinding (prototype i) s = Some h →
    i ∉ instances h →
    _handlers (run [OMount dom i; OUnmount i] s).1 = _handlers s.
Proof.
  intros dom i s h Hg Hi.
  rewrite !run_cons_state. cbn [step run fst].
  destruct (onMount_spec dom i s h Hg) as (s1 & E1 & Hh1 & _).
  rewrite E1. cbn [fst snd].
  assert (getBinding (prototype i) s1
          = Some {| bindings := bindings h; instances := set_add i (instances h) |}) as Hg1.
  { unfold getBinding. rewrite Hh1. apply map_get_set_eq. }
  destruct (onUnmount_returns i s1 _ Hg1) as (s2 & t2 & E2 & Hh2 & _).
  rewrite E2. cbn [fst snd]. rewrite Hh2, Hh1. simpl.
  rewrite map_set_set, set_delete_add by done.
  apply map_set_same. unfold getBinding in Hg. by destruct h.
Qed.

End ListenersExtras.

(** * Further properties of the listeners module on concrete inputs *)

(** X11 on an example: a keydown of the bound key while the instance is
    focused. *)
Lemma keydown_invokes_matching_bindings_in_order_witness :
  let event := demo_event "DIV" "a" in
  let h := {| Listeners.bindings := [(demo_keySets, 7)];
              Listeners.instances := [demo_instance] |} in
  Listeners.doc_keydown demo_focused ≠ 0
  ∧ Listeners._shouldConsider event = true
  ∧ Listeners._focusedInstance demo_focused = Listeners.FInst demo_instance
  ∧ Listeners.getBinding (Listeners.prototype demo_instance) demo_focused = Some h
  ∧ Listeners.dispatch_keydown event demo_focused
    = (Ok tt, demo_focused, [Listeners.Call (L := demo_lib) 7 demo_instance event]).
Proof.
  intros event h.
  assert (Listeners.doc_keydown demo_focused ≠ 0) as Hd by (vm_compute; discriminate).
  split; [exact Hd|]. split; [reflexivity|]. split; [reflexivity|]. split; [reflexivity|].
  exact (keydown_invokes_matching_bindings_in_order (L := demo_lib) event demo_focused
           demo_instance h Hd eq_refl eq_refl eq_refl).
Defined.

(** X14 on an example: one instance is mounted. *)
Lemma click_listener_while_tracked_witness :
  Listeners.some_instances (Listeners._handlers (Listeners.run demo_ops Listeners.init).1)
  = true
  ∧ Listeners._clicksBound (Listeners.run demo_ops Listeners.init).1 = true
  ∧ Listeners.doc_click (Listeners.run demo_ops Listeners.init).1 = 1.
Proof.
  split; [reflexivity|].
  exact (click_listener_while_tracked (L := demo_lib) demo_ops eq_refl).
Defined.

(** X15 on an example: class 200 is bound after class 100. *)
Lemma setBinding_leaves_other_classes_witness :
  200 ≠ 100
  ∧ Listeners.getBinding 100
      (Listeners.setBinding (L := demo_lib) (Some "b") 8 200 demo_bound).1.2
    = Listeners.getBinding 100 demo_bound.
Proof.
  assert (200 ≠ 100) as Hne by lia.
  split; [exact Hne|].
  exact (setBinding_leaves_other_classes (L := demo_lib) (Some "b") 8 200 100 demo_bound Hne).
Defined.

(** X17 on an example: a click on the node of the mounted instance. *)
Lemma click_focuses_first_instance_hit_witness :
  Listeners.doc_click demo_focused ≠ 0
  ∧ (∀ i, i ∈ Listeners.tracked demo_focused → Listeners.findDOMNode demo_dom i ≠ None)
  ∧ ∃ s', Listeners.dispatch_click demo_dom 1 demo_focused
          = (Ok tt, s', [Listeners.Activate (Listeners.FInst demo_instance)])
      ∧ Listeners._focusedInstance s' = Listeners.FInst demo_instance
      ∧ Listeners._keysBound s' = true
      ∧ Listeners._handlers s' = Listeners._handlers demo_focused.
Proof.
  assert (Listeners.doc_click demo_focused ≠ 0) as Hd by (vm_compute; discriminate).
  assert (∀ i, i ∈ Listeners.tracked demo_focused →
               Listeners.findDOMNode demo_dom i ≠ None) as Hr.
  { intros i _. simpl. discriminate. }
  split; [exact Hd|]. split; [exact Hr|].
  exact (click_focuses_first_instance_hit (L := demo_lib) demo_dom 1 demo_focused Hd Hr).
Defined.

(** X18 on an example: a click while the mounted instance is not
    rendered. *)
Lemma click_throws_when_first_instance_unrendered_witness :
  Listeners.doc_click demo_focused ≠ 0
  ∧ Listeners.tracked demo_focused = demo_instance :: []
  ∧ Listeners.findDOMNode demo_dom_unrendered demo_instance = None
  ∧ Listeners.dispatch_click demo_dom_unrendered 1 demo_focused
    = (Throw TypeError, demo_focused, []).
Proof.
  assert (Listeners.doc_click demo_focused ≠ 0) as Hd by (vm_compute; discriminate).
  split; [exact Hd|]. split; [reflexivity|]. split; [reflexivity|].
  exact (click_throws_when_first_instance_unrendered (L := demo_lib) demo_dom_unrendered 1
           demo_focused demo_instance [] Hd eq_refl eq_refl).
Defined.

(** X19 on examples: a focus event on an element without wrapper, and on
    the focusable element of the mounted instance. *)
Lemma focus_event_focuses_first_wrapper_witness :
  (Listeners.onfocus demo_focused !! 7 = None
   ∧ Listeners.dispatch_focus 7 demo_focused = (Ok tt, demo_focused, []))
  ∧ (Listeners.onfocus demo_focused !! 51 = Some [demo_instance]
     ∧ last [demo_instance] = Some demo_instance
     ∧ ∃ s', Listeners.dispatch_focus 51 demo_focused
             = (Ok tt, s',
                map (fun j => Listeners.Activate (L := demo_lib) (Listeners.FInst j))
                  [demo_instance])
         ∧ Listeners._focusedInstance s' = Listeners.FInst demo_instance
         ∧ Listeners._keysBound s' = true).
Proof.
  split.
  - split; [reflexivity|].
    exact (proj1 (focus_event_focuses_first_wrapper (L := demo_lib) 7 demo_focused) eq_refl).
  - split; [reflexivity|]. split; [reflexivity|].
    exact (proj2 (focus_event_focuses_first_wrapper (L := demo_lib) 51 demo_focused)
             [demo_instance] demo_instance eq_refl eq_refl).
Defined.

(** X20 on an example: a second instance, rendered as node 2 with the
    focusable element 52, is mounted. *)
Lemma onMount_wraps_focusable_elements_witness :
  let h := {| Listeners.bindings := [(demo_keySets, 7)];
              Listeners.instances := [demo_instance] |} in
  Listeners.getBinding (Listeners.prototype demo_instance2) demo_focused = Some h
  ∧ Listeners.has_querySelectorAll demo_dom = true
  ∧ Listeners.findDOMNode demo_dom demo_instance2 = Some 2
  ∧ NoDup (Listeners.querySelectorAll demo_dom 2)
  ∧ Listeners.onfocus (Listeners.onMount demo_dom demo_instance2 demo_focused).1.2 !! 52
    = Some [demo_instance2].
Proof.
  intros h.
  assert (NoDup (Listeners.querySelectorAll demo_dom 2)) as Hnd
    by (simpl; apply NoDup_singleton).
  split; [reflexivity|]. split; [reflexivity|]. split; [reflexivity|]. split; [exact Hnd|].
  exact (onMount_wraps_focusable_elements (L := demo_lib) demo_dom demo_instance2
           demo_focused h 2 52 eq_refl eq_refl eq_refl Hnd).
Defined.

(** X21 on an example: a second instance is mounted while the first is
    focused. *)
Lemma onMount_tracks_and_defers_activation_witness :
  let h := {| Listeners.bindings := [(demo_keySets, 7)];
              Listeners.instances := [demo_instance] |} in
  Listeners.getBinding (Listeners.prototype demo_instance2) demo_focused = Some h
  ∧ ∃ s', Listeners.onMount demo_dom demo_instance2 demo_focused = (Ok tt, s', [])
      ∧ Listeners.timers s' = Listeners.timers demo_focused ++ [demo_instance2]
      ∧ Listeners._focusedInstance s' = Listeners._focusedInstance demo_focused.
Proof.
  intros h. split; [reflexivity|].
  destruct (onMount_tracks_and_defers_activation (L := demo_lib) demo_dom demo_instance2
              demo_focused h eq_refl)
    as (s' & E & _ & _ & _ & _ & Ht & Hf & _).
  exists s'. split; [exact E|]. split; [exact Ht|exact Hf].
Defined.

(** X22 on an example: the instance is mounted and unmounted, then the
    timer runs. *)
Lemma unmount_does_not_cancel_activation_witness :
  let s3 := (Listeners.run
               [Listeners.OMount demo_dom demo_instance;
                Listeners.OUnmount demo_instance; Listeners.OTimer] demo_bound).1 in
  Listeners.getBinding (Listeners.prototype demo_instance) demo_bound ≠ None
  ∧ Listeners.timers demo_bound = []
  ∧ Listeners._focusedInstance s3 = Listeners.FInst demo_instance
  ∧ Listeners._keysBound s3 = true
  ∧ ∃ h3, Listeners.getBinding (Listeners.prototype demo_instance) s3 = Some h3
      ∧ demo_instance ∉ Listeners.instances h3.
Proof.
  intros s3.
  assert (Listeners.getBinding (Listeners.prototype demo_instance) demo_bound ≠ None) as Hg
    by (vm_compute; discriminate).
  split; [exact Hg|]. split; [reflexivity|].
  exact (unmount_does_not_cancel_activation (L := demo_lib) demo_dom demo_instance
           demo_bound Hg eq_refl).
Defined.

(** X23 on an example: the instance is mounted and unmounted. *)
Lemma mount_then_unmount_restores_registry_witness :
  let h := {| Listeners.bindings := [(demo_keySets, 7)]; Listeners.instances := [] |} in
  Listeners.getBinding (Listeners.prototype demo_instance) demo_bound = Some h
  ∧ (demo_instance ∉ Listeners.instances h)
  ∧ Listeners._handlers
      (Listeners.run [Listeners.OMount demo_dom demo_instance;
                      Listeners.OUnmount demo_instance] demo_bound).1
    = Listeners._handlers demo_bound.
Proof.
  intros h.
  assert (demo_instance ∉ Listeners.instances h) as Hi by (simpl; apply not_elem_of_nil).
  split; [reflexivity|]. split; [exact Hi|].
  exact (mount_then_unmount_restores_registry (L := demo_lib) demo_dom demo_instance
           demo_bound h eq_refl Hi).
Defined.
